(** * halyzhang.github.io: the timeline re-sorter and the build checks

    A shallow embedding of the browser-side sort widget of the "Shorter
    Works" page ([sortUsingNestedText], [sortwc], [sortdate]) and of the
    command-line verification scripts (SEO, accessibility, generators),
    with the properties the specification states about them. *)

From Stdlib Require Import List ZArith Lia Bool Ascii String.
From Stdlib Require Import Permutation Sorted DecimalString.
Import ListNotations.

Set Implicit Arguments.

(** ** JavaScript values and builtins used by the page *)

Module Js.

Local Open Scope Z_scope.

(** Strings are sequences of ASCII characters: every key of the page (date
    ids such as 2020-09-10, word counts such as 1200) is ASCII, and on ASCII
    a UTF-16 code unit is the character's code. *)

(** The relational operators on two strings compare them code unit by code
    unit ([a > b], [a < b] of ECMAScript on String operands). *)
Definition str_gt (a b : string) : bool :=
  match String.compare a b with Gt => true | _ => false end.

Definition str_lt (a b : string) : bool :=
  match String.compare a b with Lt => true | _ => false end.

(** [attr('id')] yields [undefined] when nothing is matched or the attribute
    is absent.  A relational operator with an [undefined] operand converts it
    to NaN and answers false. *)
Definition gt_attr (a b : option string) : bool :=
  match a, b with
  | Some x, Some y => str_gt x y
  | _, _ => false
  end.

Definition lt_attr (a b : option string) : bool :=
  match a, b with
  | Some x, Some y => str_lt x y
  | _, _ => false
  end.

(** Numbers produced by [parseInt]: [None] is NaN, [Some z] the integer [z]
    (word counts are far below 2^53, where doubles are exact integers). *)
Definition number := option Z.

Definition gt_num (a b : number) : bool :=
  match a, b with
  | Some x, Some y => x >? y
  | _, _ => false
  end.

Definition lt_num (a b : number) : bool :=
  match a, b with
  | Some x, Some y => x <? y
  | _, _ => false
  end.

(** White space skipped by [parseInt]: TAB, LF, VT, FF, CR and SPACE. *)
Definition is_white (c : ascii) : bool :=
  let n := nat_of_ascii c in
  ((9 <=? n)%nat && (n <=? 13)%nat) || (n =? 32)%nat.

Fixpoint trim_start (s : string) : string :=
  match s with
  | String c s' => if is_white c then trim_start s' else s
  | EmptyString => EmptyString
  end.

(** The value of a character as a digit: 0-9, then a-z and A-Z for 10-35. *)
Definition digit_value (c : ascii) : option Z :=
  let n := Z.of_nat (nat_of_ascii c) in
  if (48 <=? n) && (n <=? 57) then Some (n - 48)
  else if (97 <=? n) && (n <=? 122) then Some (n - 87)
  else if (65 <=? n) && (n <=? 90) then Some (n - 55)
  else None.

(** The longest prefix of [s] made of radix-[r] digits, read as an integer
    (accumulator [acc]); [seen] tells whether a digit was read at all. *)
Fixpoint digits (r : Z) (s : string) (acc : Z) (seen : bool) : option Z :=
  match s with
  | String c s' =>
      match digit_value c with
      | Some d =>
          if d <? r then digits r s' (acc * r + d) true
          else if seen then Some acc else None
      | None => if seen then Some acc else None
      end
  | EmptyString => if seen then Some acc else None
  end.

(** [parseInt(string)] with no radix argument: leading white space is
    dropped, then an optional sign, then an optional 0x or 0X prefix that
    selects radix 16 (otherwise radix 10); the digits that follow are read up
    to the first character that is not a digit, and NaN is returned when
    there is none. *)
Definition parseInt (s : string) : number :=
  let s1 := trim_start s in
  let '(sign, s2) :=
    match s1 with
    | String "-" t => (-1, t)
    | String "+" t => (1, t)
    | _ => (1, s1)
    end in
  let '(radix, s3) :=
    match s2 with
    | String "0" (String "x" t) => (16, t)
    | String "0" (String "X" t) => (16, t)
    | _ => (10, s2)
    end in
  match digits radix s3 0 false with
  | Some m => Some (sign * m)
  | None => None
  end.

(** Severity of a console line. *)
Inductive level := Log | Warn | Error.

Definition level_eqb (a b : level) : bool :=
  match a, b with
  | Log, Log | Warn, Warn | Error, Error => true
  | _, _ => false
  end.

Definition console := list (level * string).

End Js.

Example parseInt_1200 : Js.parseInt "1200" = Some 1200%Z.
Proof. reflexivity. Qed.

Example parseInt_blank : Js.parseInt "" = None.
Proof. reflexivity. Qed.

Example parseInt_padded : Js.parseInt "  -42 words" = Some (-42)%Z.
Proof. reflexivity. Qed.

Example parseInt_hex : Js.parseInt "0x1F" = Some 31%Z.
Proof. reflexivity. Qed.

(** ** Array.prototype.sort

    jQuery's [.sort] is [Array.prototype.sort] applied to the jQuery object.
    The engine's algorithm is not part of the page: it is taken through the
    contract ECMAScript (2019 and later) gives for it. *)

Module ArraySort.

Local Open Scope Z_scope.

Section Comparator.

Variable A : Type.
Variable cmp : A -> A -> Z.

(** A consistent comparison function for the values of [l]: with
    [a =CF b] for [cmp a b = 0], [a <CF b] for [cmp a b < 0] and [a >CF b]
    for [cmp a b > 0], reflexivity and symmetry of [=CF] and transitivity of
    [=CF], [<CF] and [>CF]. *)
Record consistent (l : list A) : Prop := {
  cf_refl : forall a, In a l -> cmp a a = 0;
  cf_sym : forall a b, In a l -> In b l -> cmp a b = 0 -> cmp b a = 0;
  cf_trans_eq : forall a b c, In a l -> In b l -> In c l ->
    cmp a b = 0 -> cmp b c = 0 -> cmp a c = 0;
  cf_trans_lt : forall a b c, In a l -> In b l -> In c l ->
    cmp a b < 0 -> cmp b c < 0 -> cmp a c < 0;
  cf_trans_gt : forall a b c, In a l -> In b l -> In c l ->
    cmp a b > 0 -> cmp b c > 0 -> cmp a c > 0
}.

(** [a] is not after [b] in sort order. *)
Definition cle (a b : A) : Prop := cmp a b <= 0.

(** The elements of [l] that compare equal to [x], in the order of [l]. *)
Definition ties (x : A) (l : list A) : list A :=
  filter (fun y => cmp x y =? 0) l.

(** [a] occurs at some position of [l] before an occurrence of [b]. *)
Definition before (a b : A) (l : list A) : Prop :=
  exists l1 l2 l3, l = l1 ++ a :: l2 ++ b :: l3.

(** Straight insertion: the new element goes in front of the first element
    it is not after. *)
Fixpoint insert (x : A) (l : list A) : list A :=
  match l with
  | [] => [x]
  | y :: l' => if cmp x y <=? 0 then x :: l else y :: insert x l'
  end.

Fixpoint insertion_sort (l : list A) : list A :=
  match l with
  | [] => []
  | x :: l' => insert x (insertion_sort l')
  end.

End Comparator.

(** What ECMAScript promises of [Array.prototype.sort]: the result holds
    the same elements; when the comparison function is consistent for them,
    the result is in sort order and elements that compare equal keep their
    relative order.  With an inconsistent comparison function the order is
    implementation-defined, so nothing more is promised. *)
Record Engine : Type := {
  array_sort : forall A : Type, (A -> A -> Z) -> list A -> list A;
  array_sort_perm : forall A (cmp : A -> A -> Z) l,
    Permutation l (array_sort cmp l);
  array_sort_sorted : forall A (cmp : A -> A -> Z) l,
    consistent cmp l -> StronglySorted (cle cmp) (array_sort cmp l);
  array_sort_stable : forall A (cmp : A -> A -> Z) l,
    consistent cmp l -> forall x, In x l ->
    ties cmp x (array_sort cmp l) = ties cmp x l
}.

Section ComparatorFacts.

Variable A : Type.
Variable cmp : A -> A -> Z.

Lemma consistent_perm (l l' : list A) :
  Permutation l l' -> consistent cmp l -> consistent cmp l'.
Proof.
  intros P [R S Te Tl Tg].
  assert (I : forall a, In a l' -> In a l)
    by (intros a; apply Permutation_in; now apply Permutation_sym).
  constructor; eauto 8.
Qed.

Lemma consistent_incl (l l' : list A) :
  incl l' l -> consistent cmp l -> consistent cmp l'.
Proof.
  intros I [R S Te Tl Tg]. constructor; eauto 8.
Qed.

Lemma consistent_tail (x : A) (l : list A) :
  consistent cmp (x :: l) -> consistent cmp l.
Proof. apply consistent_incl. intros a; now right. Qed.

Section OnList.

Variable l : list A.
Hypothesis C : consistent cmp l.

(** Exactly one of [<CF], [=CF], [>CF] holds, so [a <CF b] and [b >CF a]
    are the same. *)
Lemma cf_lt_gt (a b : A) : In a l -> In b l -> cmp a b < 0 -> cmp b a > 0.
Proof.
  intros Ia Ib H.
  destruct (Z.compare_spec (cmp b a) 0) as [E | L | G]; [ | | lia].
  - pose proof (cf_sym C b a Ib Ia E). lia.
  - pose proof (cf_trans_lt C a b a Ia Ib Ia H L).
    pose proof (cf_refl C a Ia). lia.
Qed.

Lemma cf_gt_lt (a b : A) : In a l -> In b l -> cmp a b > 0 -> cmp b a < 0.
Proof.
  intros Ia Ib H.
  destruct (Z.compare_spec (cmp b a) 0) as [E | L | G]; [ | lia | ].
  - pose proof (cf_sym C b a Ib Ia E). lia.
  - pose proof (cf_trans_gt C a b a Ia Ib Ia H ltac:(lia)).
    pose proof (cf_refl C a Ia). lia.
Qed.

Lemma cle_total (a b : A) : In a l -> In b l -> ~ cle cmp a b -> cle cmp b a.
Proof.
  unfold cle; intros Ia Ib H.
  pose proof (@cf_gt_lt a b Ia Ib). lia.
Qed.

Lemma cle_trans (a b c : A) :
  In a l -> In b l -> In c l -> cle cmp a b -> cle cmp b c -> cle cmp a c.
Proof.
  unfold cle; intros Ia Ib Ic Hab Hbc.
  destruct (Z.compare_spec (cmp a c) 0) as [E | L | G]; [lia | lia | exfalso].
  assert (Hca : cmp c a < 0) by (apply cf_gt_lt; auto; lia).
  destruct (Z.eq_dec (cmp a b) 0) as [Eab | Nab].
  - destruct (Z.eq_dec (cmp b c) 0) as [Ebc | Nbc].
    + pose proof (cf_trans_eq C a b c Ia Ib Ic Eab Ebc). lia.
    + assert (Lbc : cmp b c < 0) by lia.
      pose proof (cf_trans_lt C b c a Ib Ic Ia Lbc Hca).
      pose proof (cf_sym C a b Ia Ib Eab). lia.
  - assert (Lab : cmp a b < 0) by lia.
    pose proof (cf_trans_lt C c a b Ic Ia Ib Hca Lab) as Lcb.
    pose proof (@cf_lt_gt c b Ic Ib Lcb). lia.
Qed.

Lemma cle_antisym (a b : A) :
  In a l -> In b l -> cle cmp a b -> cle cmp b a -> cmp a b = 0.
Proof.
  unfold cle; intros Ia Ib H1 H2.
  destruct (Z.eq_dec (cmp a b) 0) as [E | N]; [assumption | ].
  assert (L : cmp a b < 0) by lia.
  pose proof (@cf_lt_gt a b Ia Ib L). lia.
Qed.

End OnList.

(** *** Subsequences and relative order *)

Lemma filter_cons_inv (p : A -> bool) (l : list A) (a : A) (m : list A) :
  filter p l = a :: m ->
  exists l1 l2, l = l1 ++ a :: l2 /\ filter p l1 = [] /\ filter p l2 = m.
Proof.
  induction l as [ | y l IH]; simpl; [discriminate | ].
  destruct (p y) eqn:Py; intros H.
  - injection H as -> Hm. exists [], l. auto.
  - destruct (IH H) as (l1 & l2 & -> & H1 & H2).
    exists (y :: l1), l2. simpl. rewrite Py. auto.
Qed.

Lemma filter_app_inv (p : A -> bool) (l m m' : list A) :
  filter p l = m ++ m' ->
  exists l1 l2, l = l1 ++ l2 /\ filter p l1 = m /\ filter p l2 = m'.
Proof.
  revert l; induction m as [ | a m IH]; intros l H.
  - exists [], l. auto.
  - simpl in H. destruct (filter_cons_inv p l H) as (l1 & l2 & -> & H1 & H2).
    destruct (IH l2 H2) as (k1 & k2 & -> & K1 & K2).
    exists (l1 ++ a :: k1), k2. rewrite <- app_assoc. split; [reflexivity | ].
    split; [ | assumption].
    rewrite filter_app, H1. simpl.
    assert (Pa : p a = true).
    { assert (I : In a (filter p (l1 ++ a :: k1 ++ k2)))
        by (rewrite H; now left).
      now apply filter_In in I. }
    now rewrite Pa, K1.
Qed.

Lemma before_filter (p : A -> bool) (a b : A) (l : list A) :
  before a b (filter p l) -> before a b l.
Proof.
  intros (m1 & m2 & m3 & H).
  destruct (filter_app_inv p l _ _ H) as (l1 & r1 & -> & _ & H1).
  destruct (filter_cons_inv p r1 H1) as (l2 & r2 & -> & _ & H2).
  destruct (filter_app_inv p r2 _ _ H2) as (l3 & r3 & -> & _ & H3).
  destruct (filter_cons_inv p r3 H3) as (l4 & r4 & -> & _ & _).
  exists (l1 ++ l2), (l3 ++ l4), r4.
  now rewrite <- !app_assoc.
Qed.

Lemma filter_before (p : A -> bool) (a b : A) (l : list A) :
  p a = true -> p b = true -> before a b l -> before a b (filter p l).
Proof.
  intros Pa Pb (l1 & l2 & l3 & ->).
  exists (filter p l1), (filter p l2), (filter p l3).
  rewrite filter_app. simpl. rewrite Pa, filter_app. simpl. now rewrite Pb.
Qed.

(** Equal [ties] carry the relative order of two elements that compare
    equal from one list to the other. *)
Lemma ties_before (l l' : list A) (a b : A) :
  cmp a a = 0 -> cmp a b = 0 ->
  ties cmp a l' = ties cmp a l -> before a b l -> before a b l'.
Proof.
  intros Ra Eab T B.
  apply before_filter with (p := fun y => cmp a y =? 0).
  fold (ties cmp a l'). rewrite T.
  apply filter_before; trivial; now apply Z.eqb_eq.
Qed.

(** *** Straight insertion sorts, and is stable *)

Lemma insert_perm (x : A) (l : list A) : Permutation (x :: l) (insert cmp x l).
Proof.
  induction l as [ | y l IH]; simpl; [reflexivity | ].
  destruct (cmp x y <=? 0); [reflexivity | ].
  rewrite perm_swap. now constructor.
Qed.

Lemma insertion_sort_perm (l : list A) : Permutation l (insertion_sort cmp l).
Proof.
  induction l as [ | x l IH]; simpl; [constructor | ].
  rewrite <- insert_perm. now constructor.
Qed.

Lemma insert_sorted (L : list A) (x : A) (l : list A) :
  consistent cmp L -> incl (x :: l) L ->
  StronglySorted (cle cmp) l -> StronglySorted (cle cmp) (insert cmp x l).
Proof.
  intros C. induction l as [ | y l IH]; intros I S; simpl.
  - repeat constructor.
  - assert (Ix : In x L) by (apply I; now left).
    assert (Iy : In y L) by (apply I; right; now left).
    inversion S as [ | ? ? S' F]; subst.
    destruct (cmp x y <=? 0) eqn:Hxy.
    + apply Z.leb_le in Hxy. constructor; [assumption | ].
      constructor; [assumption | ].
      rewrite Forall_forall in F |- *. intros z Iz.
      apply (cle_trans C) with (b := y); auto.
      apply I. right; now right.
    + apply Z.leb_gt in Hxy. constructor.
      * apply IH; [ | assumption].
        intros z [-> | Iz]; apply I; [now left | right; now right].
      * apply (Permutation_Forall (insert_perm x l)).
        constructor; [ | assumption].
        apply (cle_total C); auto. unfold cle; lia.
Qed.

Lemma insertion_sort_sorted (l : list A) :
  consistent cmp l -> StronglySorted (cle cmp) (insertion_sort cmp l).
Proof.
  intros C.
  assert (G : forall k, incl k l -> StronglySorted (cle cmp) (insertion_sort cmp k)).
  { induction k as [ | x k IH]; intros I; simpl; [constructor | ].
    apply insert_sorted with (L := l); trivial.
    - intros z [-> | Iz]; [apply I; now left | ].
      apply I. right.
      apply Permutation_in with (l := insertion_sort cmp k); trivial.
      apply Permutation_sym, insertion_sort_perm.
    - apply IH. intros z Iz. apply I. now right. }
  apply G, incl_refl.
Qed.

Lemma ties_insert (L : list A) (z x : A) (l : list A) :
  consistent cmp L -> In z L -> incl (x :: l) L ->
  ties cmp z (insert cmp x l) = ties cmp z (x :: l).
Proof.
  intros C Iz. induction l as [ | y l IH]; intros I; simpl; [reflexivity | ].
  assert (Ix : In x L) by (apply I; now left).
  assert (Iy : In y L) by (apply I; right; now left).
  destruct (cmp x y <=? 0) eqn:Hxy; [reflexivity | ].
  apply Z.leb_gt in Hxy. simpl.
  assert (IH' : ties cmp z (insert cmp x l) = ties cmp z (x :: l)).
  { apply IH. intros w [-> | Iw]; apply I; [now left | right; now right]. }
  unfold ties in IH' |- *. rewrite IH'. simpl.
  destruct (cmp z x =? 0) eqn:Ezx; destruct (cmp z y =? 0) eqn:Ezy; trivial.
  exfalso. apply Z.eqb_eq in Ezx, Ezy.
  pose proof (cf_sym C z x Iz Ix Ezx) as Exz.
  pose proof (cf_trans_eq C x z y Ix Iz Iy Exz Ezy). lia.
Qed.

Lemma insertion_sort_stable (l : list A) (z : A) :
  consistent cmp l -> In z l ->
  ties cmp z (insertion_sort cmp l) = ties cmp z l.
Proof.
  intros C Iz.
  assert (G : forall k, incl k l ->
    ties cmp z (insertion_sort cmp k) = ties cmp z k).
  { induction k as [ | x k IH]; intros I; simpl; [reflexivity | ].
    rewrite ties_insert with (L := l); trivial.
    - simpl. rewrite IH; [reflexivity | ].
      intros w Iw. apply I. now right.
    - intros w [-> | Iw]; [apply I; now left | ].
      apply I. right.
      apply Permutation_in with (l := insertion_sort cmp k); trivial.
      apply Permutation_sym, insertion_sort_perm. }
  apply G, incl_refl.
Qed.

(** *** The sorted, stable arrangement is unique *)

Lemma ties_head (x a : A) (l : list A) :
  cmp x a = 0 -> ties cmp x (a :: l) = a :: ties cmp x l.
Proof. intros E. unfold ties. simpl. now rewrite E. Qed.

Lemma ties_skip (x a : A) (l : list A) :
  cmp x a <> 0 -> ties cmp x (a :: l) = ties cmp x l.
Proof.
  intros N. unfold ties. simpl.
  destruct (cmp x a =? 0) eqn:E; [apply Z.eqb_eq in E; contradiction | trivial].
Qed.

Lemma ties_In (x y : A) (l : list A) : In y (ties cmp x l) -> In y l.
Proof. unfold ties. intros H. now apply filter_In in H. Qed.

Lemma sorted_head_le (a y : A) (l : list A) :
  cmp a a = 0 -> StronglySorted (cle cmp) (a :: l) -> In y (a :: l) ->
  cle cmp a y.
Proof.
  intros R S [<- | I].
  - unfold cle; lia.
  - inversion S as [ | ? ? _ F]; subst.
    rewrite Forall_forall in F. now apply F.
Qed.

Lemma sorted_stable_unique (L l1 : list A) :
  consistent cmp L -> forall l2, incl l1 L -> incl l2 L ->
  StronglySorted (cle cmp) l1 -> StronglySorted (cle cmp) l2 ->
  (forall x, In x L -> ties cmp x l1 = ties cmp x l2) ->
  l1 = l2.
Proof.
  intros C. induction l1 as [ | a l1 IH]; intros [ | b l2] I1 I2 S1 S2 T.
  - reflexivity.
  - assert (Ib : In b L) by (apply I2; now left).
    specialize (T b Ib). rewrite ties_head in T by now apply (cf_refl C).
    discriminate.
  - assert (Ia : In a L) by (apply I1; now left).
    specialize (T a Ia). rewrite ties_head in T by now apply (cf_refl C).
    discriminate.
  - assert (Ia : In a L) by (apply I1; now left).
    assert (Ib : In b L) by (apply I2; now left).
    pose proof (cf_refl C a Ia) as Ra. pose proof (cf_refl C b Ib) as Rb.
    assert (Hba : cle cmp b a).
    { apply sorted_head_le with (l := l2); trivial.
      apply ties_In with (x := a). rewrite <- (T a Ia), ties_head by trivial.
      now left. }
    assert (Hab : cle cmp a b).
    { apply sorted_head_le with (l := l1); trivial.
      apply ties_In with (x := b). rewrite (T b Ib), ties_head by trivial.
      now left. }
    pose proof (cle_antisym C Ia Ib Hab Hba) as Eab.
    pose proof (T a Ia) as Ta. rewrite !ties_head in Ta by trivial.
    injection Ta as <- Ta. f_equal.
    apply IH.
    + intros w Iw. apply I1. now right.
    + intros w Iw. apply I2. now right.
    + now inversion S1.
    + now inversion S2.
    + intros x Ix. specialize (T x Ix).
      destruct (Z.eq_dec (cmp x a) 0) as [E | N].
      * rewrite !ties_head in T by trivial. now injection T.
      * now rewrite !ties_skip in T by trivial.
Qed.

End ComparatorFacts.

(** Straight insertion is one engine that meets the contract. *)
Definition insertion_engine : Engine :=
  {| array_sort := insertion_sort;
     array_sort_perm := insertion_sort_perm;
     array_sort_sorted := insertion_sort_sorted;
     array_sort_stable := fun A cmp l C x I => @insertion_sort_stable A cmp l x C I |}.

Section EngineFacts.

Variable E : Engine.
Variable A : Type.
Variable cmp : A -> A -> Z.

(** With a consistent comparison function every engine returns the same
    list: the one straight insertion computes. *)
Lemma array_sort_unique (l : list A) :
  consistent cmp l -> array_sort E cmp l = insertion_sort cmp l.
Proof.
  intros C.
  apply sorted_stable_unique with (cmp := cmp) (L := l); trivial.
  - intros x I. apply Permutation_in with (l := array_sort E cmp l); trivial.
    apply Permutation_sym, array_sort_perm.
  - intros x I. apply Permutation_in with (l := insertion_sort cmp l); trivial.
    apply Permutation_sym, insertion_sort_perm.
  - now apply array_sort_sorted.
  - now apply insertion_sort_sorted.
  - intros x I. rewrite array_sort_stable, insertion_sort_stable; trivial.
Qed.

(** A list already in sort order is returned as it is. *)
Lemma array_sort_sorted_id (l : list A) :
  consistent cmp l -> StronglySorted (cle cmp) l -> array_sort E cmp l = l.
Proof.
  intros C S.
  apply sorted_stable_unique with (cmp := cmp) (L := l); trivial.
  - intros x I. apply Permutation_in with (l := array_sort E cmp l); trivial.
    apply Permutation_sym, array_sort_perm.
  - apply incl_refl.
  - now apply array_sort_sorted.
  - intros x I. now apply array_sort_stable.
Qed.

End EngineFacts.

(** *** Binary insertion with run detection

    The scheme V8 (Chrome, Node) follows on arrays of fewer than 64
    elements: the longest run at the start of the array is found (and
    reversed when it descends strictly), then every further element is put
    in place by a binary search of the part already in order. *)

Section BinaryInsertion.

Variable A : Type.
Variable cmp : A -> A -> Z.

(** The binary search of [acc] between [left] and [right] for the place of
    [pivot]. *)
Fixpoint search (fuel : nat) (pivot : A) (acc : list A) (left right : nat)
  : nat :=
  match fuel with
  | O => left
  | S fuel' =>
      if (left <? right)%nat then
        let mid := (left + (right - left) / 2)%nat in
        match nth_error acc mid with
        | Some e =>
            if cmp pivot e <? 0 then search fuel' pivot acc left mid
            else search fuel' pivot acc (S mid) right
        | None => left
        end
      else left
  end.

Definition binary_insert (acc : list A) (pivot : A) : list A :=
  let pos := search (List.length acc) pivot acc 0 (List.length acc) in
  firstn pos acc ++ pivot :: skipn pos acc.

(** The run goes on while each element is in order with the one before it:
    strictly before it in a descending run, not before it otherwise. *)
Fixpoint run_more (desc : bool) (prev : A) (l : list A) : list A * list A :=
  match l with
  | [] => ([], [])
  | cur :: l' =>
      let order := cmp cur prev in
      if (if desc then order <? 0 else 0 <=? order) then
        let (r, rest) := run_more desc cur l' in (cur :: r, rest)
      else ([], l)
  end.

Definition make_run (l : list A) : list A * list A :=
  match l with
  | x0 :: x1 :: l' =>
      let desc := cmp x1 x0 <? 0 in
      let (r, rest) := run_more desc x1 l' in
      let run := x0 :: x1 :: r in
      (if desc then rev run else run, rest)
  | _ => (l, [])
  end.

Definition binary_insertion_sort (l : list A) : list A :=
  let (run, rest) := make_run l in fold_left binary_insert rest run.

(** The run and the rest, before the run is reversed. *)
Definition run_split (l : list A) : list A * list A :=
  match l with
  | x0 :: x1 :: l' =>
      let (r, rest) := run_more (cmp x1 x0 <? 0) x1 l' in
      (x0 :: x1 :: r, rest)
  | _ => (l, [])
  end.

Definition descends (l : list A) : bool :=
  match l with
  | x0 :: x1 :: _ => cmp x1 x0 <? 0
  | _ => false
  end.

(** Later elements stand strictly before earlier ones. *)
Definition falls (a b : A) : Prop := cmp b a < 0.

End BinaryInsertion.

Section BinaryInsertionFacts.

Variable A : Type.
Variable cmp : A -> A -> Z.

Lemma binary_insert_perm (acc : list A) (p : A) :
  Permutation (p :: acc) (binary_insert cmp acc p).
Proof.
  unfold binary_insert.
  set (pos := search cmp (List.length acc) p acc 0 (List.length acc)).
  rewrite <- (firstn_skipn pos acc) at 1.
  apply Permutation_middle.
Qed.

Lemma fold_binary_insert_perm (rest run : list A) :
  Permutation (run ++ rest) (fold_left (binary_insert cmp) rest run).
Proof.
  revert run. induction rest as [ | p rest IH]; intros run; simpl.
  - now rewrite app_nil_r.
  - rewrite <- IH. rewrite <- Permutation_middle.
    apply (Permutation_app_tail rest (binary_insert_perm run p)).
Qed.

Lemma run_more_app (desc : bool) (prev : A) (l : list A) :
  fst (run_more cmp desc prev l) ++ snd (run_more cmp desc prev l) = l.
Proof.
  revert prev. induction l as [ | cur l IH]; intros prev; simpl; trivial.
  destruct (if desc then cmp cur prev <? 0 else 0 <=? cmp cur prev); trivial.
  specialize (IH cur). destruct (run_more cmp desc cur l). simpl in *.
  now rewrite IH.
Qed.

Lemma run_split_app (l : list A) :
  fst (run_split cmp l) ++ snd (run_split cmp l) = l.
Proof.
  destruct l as [ | x0 [ | x1 l]]; simpl; trivial.
  pose proof (run_more_app (cmp x1 x0 <? 0) x1 l) as H.
  destruct (run_more cmp (cmp x1 x0 <? 0) x1 l). simpl in *. now rewrite H.
Qed.

Lemma make_run_split (l : list A) :
  make_run cmp l
  = (if descends cmp l then rev (fst (run_split cmp l)) else fst (run_split cmp l),
     snd (run_split cmp l)).
Proof.
  destruct l as [ | x0 [ | x1 l]]; simpl; trivial.
  destruct (run_more cmp (cmp x1 x0 <? 0) x1 l). simpl.
  now destruct (cmp x1 x0 <? 0).
Qed.

Lemma binary_insertion_sort_perm (l : list A) :
  Permutation l (binary_insertion_sort cmp l).
Proof.
  unfold binary_insertion_sort. rewrite make_run_split.
  rewrite <- fold_binary_insert_perm.
  rewrite <- (run_split_app l) at 1.
  apply Permutation_app_tail.
  destruct (descends cmp l); [apply Permutation_rev | reflexivity].
Qed.


Lemma sorted_nth (R : A -> A -> Prop) (l : list A) :
  StronglySorted R l ->
  forall i j a b, (i < j)%nat ->
  nth_error l i = Some a -> nth_error l j = Some b -> R a b.
Proof.
  induction 1 as [ | x l S IH F]; intros i j a b Lt Hi Hj.
  - now destruct i.
  - destruct j as [ | j]; [lia | ]. simpl in Hj.
    destruct i as [ | i]; simpl in Hi.
    + injection Hi as <-. rewrite Forall_forall in F.
      apply F. eapply nth_error_In; eauto.
    + apply (IH i j); trivial; lia.
Qed.

Lemma sorted_around (R : A -> A -> Prop) (l1 l2 : list A) (x : A) :
  StronglySorted R (l1 ++ l2) ->
  Forall (fun e => R e x) l1 -> Forall (R x) l2 ->
  StronglySorted R (l1 ++ x :: l2).
Proof.
  induction l1 as [ | a l1 IH]; simpl; intros S F1 F2.
  - now constructor.
  - inversion S as [ | ? ? S' Fa]; subst.
    inversion F1 as [ | ? ? Rax F1']; subst.
    constructor; [now apply IH | ].
    apply Forall_app in Fa. destruct Fa as [Fa1 Fa2].
    apply Forall_app. split; [assumption | ].
    now constructor.
Qed.

Section OnList.

Variable L : list A.
Hypothesis C : consistent cmp L.

Lemma cf_ge_cle (a b : A) :
  In a L -> In b L -> 0 <= cmp a b -> cle cmp b a.
Proof.
  unfold cle. intros Ia Ib H.
  destruct (Z.eq_dec (cmp a b) 0) as [E | N].
  - rewrite (cf_sym C a b Ia Ib E). lia.
  - pose proof (@cf_gt_lt _ _ _ C a b Ia Ib). lia.
Qed.

Lemma cle_cf_ge (a b : A) :
  In a L -> In b L -> cle cmp a b -> 0 <= cmp b a.
Proof.
  unfold cle. intros Ia Ib H.
  destruct (Z.eq_dec (cmp a b) 0) as [E | N].
  - rewrite (cf_sym C a b Ia Ib E). lia.
  - pose proof (@cf_lt_gt _ _ _ C a b Ia Ib). lia.
Qed.

Lemma clt_cle_trans (a b c : A) :
  In a L -> In b L -> In c L ->
  cmp a b < 0 -> cle cmp b c -> cmp a c < 0.
Proof.
  intros Ia Ib Ic Hab Hbc.
  destruct (Z_lt_ge_dec (cmp a c) 0) as [Lt | Ge]; [assumption | exfalso].
  assert (Hca : cle cmp c a) by (apply cf_ge_cle; trivial; lia).
  pose proof (cle_trans C Ib Ic Ia Hbc Hca) as Hba.
  pose proof (@cf_lt_gt _ _ _ C a b Ia Ib Hab). unfold cle in Hba. lia.
Qed.

(** The search ends at a place with nothing before it that should follow
    the pivot, and nothing at or after it that the pivot should follow. *)
Lemma search_spec (pivot : A) (acc : list A) :
  In pivot L -> incl acc L -> StronglySorted (cle cmp) acc ->
  forall fuel left right,
  (left <= right <= List.length acc)%nat -> (right - left <= fuel)%nat ->
  (forall i e, (i < left)%nat -> nth_error acc i = Some e -> 0 <= cmp pivot e) ->
  (forall i e, (right <= i)%nat -> nth_error acc i = Some e -> cmp pivot e < 0) ->
  let pos := search cmp fuel pivot acc left right in
  (forall i e, (i < pos)%nat -> nth_error acc i = Some e -> 0 <= cmp pivot e)
  /\ (forall i e, (pos <= i)%nat -> nth_error acc i = Some e -> cmp pivot e < 0).
Proof.
  intros Ip Ia S. induction fuel as [ | fuel IH]; intros left right B F Lo Hi.
  - cbn [search]. assert (left = right) by lia. subst. auto.
  - cbn [search]. destruct (Nat.ltb_spec left right) as [Lt | Ge].
    2:{ assert (left = right) by lia. subst. auto. }
    set (mid := (left + (right - left) / 2)%nat).
    assert (M : (left <= mid < right)%nat).
    { unfold mid. split; [lia | ].
      assert ((right - left) / 2 < right - left)%nat; [ | lia].
      apply Nat.div_lt; lia. }
    destruct (nth_error acc mid) as [e | ] eqn:Hm.
    2:{ apply nth_error_None in Hm. lia. }
    assert (Ie : In e L) by (apply Ia; eapply nth_error_In; eauto).
    destruct (Z.ltb_spec (cmp pivot e) 0) as [Lt0 | Ge0].
    + apply IH; trivial; [lia | lia | ].
      intros i e' Hi' He'.
      assert (Ie' : In e' L) by (apply Ia; eapply nth_error_In; eauto).
      destruct (Nat.eq_dec i mid) as [-> | Ne].
      * rewrite Hm in He'. now injection He' as <-.
      * apply clt_cle_trans with (b := e); trivial.
        apply (sorted_nth S) with (i := mid) (j := i); trivial. lia.
    + apply IH; trivial; [lia | lia | ].
      intros i e' Hi' He'.
      assert (Ie' : In e' L) by (apply Ia; eapply nth_error_In; eauto).
      destruct (Nat.eq_dec i mid) as [-> | Ne].
      * rewrite Hm in He'. now injection He' as <-.
      * apply cle_cf_ge; trivial.
        apply (cle_trans C) with (b := e); trivial.
        -- apply (sorted_nth S) with (i := i) (j := mid); trivial. lia.
        -- now apply cf_ge_cle.
Qed.


Lemma filter_none (p : A -> bool) (l : list A) :
  (forall x, In x l -> p x = false) -> filter p l = [].
Proof.
  induction l as [ | x l IH]; simpl; intros H; trivial.
  rewrite (H x) by now left. apply IH. intros y I. apply H. now right.
Qed.

Section Insert.

Variables (pivot : A) (acc : list A).
Hypothesis Ip : In pivot L.
Hypothesis Ia : incl acc L.
Hypothesis S : StronglySorted (cle cmp) acc.

Let pos := search cmp (List.length acc) pivot acc 0 (List.length acc).

Lemma place_before (e : A) : In e (firstn pos acc) -> 0 <= cmp pivot e.
Proof.
  intros I. apply In_nth_error in I. destruct I as [i Hi].
  rewrite nth_error_firstn in Hi.
  destruct (Nat.ltb_spec i pos) as [Lt | Ge]; [ | discriminate].
  refine (proj1 (search_spec Ip Ia S (fuel := List.length acc)
                   (left := 0) (right := List.length acc) _ _ _ _) i e Lt Hi);
    try lia.
  intros j e' Hj He'.
  assert (nth_error acc j = None) by (apply nth_error_None; lia). congruence.
Qed.

Lemma place_after (e : A) : In e (skipn pos acc) -> cmp pivot e < 0.
Proof.
  intros I. apply In_nth_error in I. destruct I as [i Hi].
  rewrite nth_error_skipn in Hi.
  refine (proj2 (search_spec Ip Ia S (fuel := List.length acc)
                   (left := 0) (right := List.length acc) _ _ _ _)
            (pos + i)%nat e _ Hi);
    try lia.
  intros j e' Hj He'.
  assert (nth_error acc j = None) by (apply nth_error_None; lia). congruence.
Qed.

Lemma binary_insert_sorted :
  StronglySorted (cle cmp) (binary_insert cmp acc pivot).
Proof.
  unfold binary_insert. fold pos. apply sorted_around.
  - now rewrite firstn_skipn.
  - apply Forall_forall. intros e I. apply cf_ge_cle; trivial.
    + apply Ia. rewrite <- (firstn_skipn pos acc). apply in_or_app. now left.
    + now apply place_before.
  - apply Forall_forall. intros e I. pose proof (place_after e I).
    unfold cle. lia.
Qed.

Lemma binary_insert_ties (z : A) :
  In z L ->
  ties cmp z (binary_insert cmp acc pivot) = ties cmp z (acc ++ [pivot]).
Proof.
  intros Iz. unfold binary_insert. fold pos. unfold ties.
  rewrite <- (firstn_skipn pos acc) at 3.
  rewrite !filter_app. simpl.
  destruct (cmp z pivot =? 0) eqn:Ez.
  - apply Z.eqb_eq in Ez.
    rewrite (@filter_none _ (skipn pos acc)); [now rewrite app_nil_r | ].
    intros e I. apply Z.eqb_neq. intros Ee.
    assert (Ie : In e L).
    { apply Ia. rewrite <- (firstn_skipn pos acc). apply in_or_app. now right. }
    pose proof (cf_sym C z pivot Iz Ip Ez) as Epz.
    pose proof (cf_trans_eq C pivot z e Ip Iz Ie Epz Ee).
    pose proof (place_after e I). lia.
  - now rewrite app_nil_r.
Qed.

End Insert.

Lemma fold_binary_insert_sorted (rest run : list A) :
  incl (run ++ rest) L -> StronglySorted (cle cmp) run ->
  StronglySorted (cle cmp) (fold_left (binary_insert cmp) rest run).
Proof.
  revert run. induction rest as [ | p rest IH]; intros run I S; simpl; trivial.
  assert (Ip : In p L) by (apply I, in_or_app; right; now left).
  assert (Ir : incl run L) by (intros x Ix; apply I, in_or_app; now left).
  apply IH.
  - intros x Ix. apply in_app_or in Ix. destruct Ix as [Ix | Ix].
    + apply (Permutation_in _ (Permutation_sym (binary_insert_perm run p))) in Ix.
      destruct Ix as [<- | Ix]; auto.
    + apply I, in_or_app. right. now right.
  - now apply binary_insert_sorted.
Qed.

Lemma fold_binary_insert_ties (z : A) (rest run : list A) :
  In z L -> incl (run ++ rest) L -> StronglySorted (cle cmp) run ->
  ties cmp z (fold_left (binary_insert cmp) rest run) = ties cmp z (run ++ rest).
Proof.
  intros Iz. revert run.
  induction rest as [ | p rest IH]; intros run I S; simpl.
  - now rewrite app_nil_r.
  - assert (Ip : In p L) by (apply I, in_or_app; right; now left).
    assert (Ir : incl run L) by (intros x Ix; apply I, in_or_app; now left).
    rewrite IH.
    + unfold ties. rewrite filter_app.
      fold (ties cmp z (binary_insert cmp run p)).
      rewrite binary_insert_ties by trivial.
      unfold ties. rewrite <- filter_app, <- app_assoc. reflexivity.
    + intros x Ix. apply in_app_or in Ix. destruct Ix as [Ix | Ix].
      * apply (Permutation_in _ (Permutation_sym (binary_insert_perm run p))) in Ix.
        destruct Ix as [<- | Ix]; auto.
      * apply I, in_or_app. right. now right.
    + now apply binary_insert_sorted.
Qed.


Lemma run_more_cons (desc : bool) (prev cur : A) (l : list A) :
  fst (run_more cmp desc prev (cur :: l))
  = if (if desc then cmp cur prev <? 0 else 0 <=? cmp cur prev)
    then cur :: fst (run_more cmp desc cur l) else [].
Proof.
  simpl.
  destruct (if desc then cmp cur prev <? 0 else 0 <=? cmp cur prev); trivial.
  now destruct (run_more cmp desc cur l).
Qed.

Lemma run_more_incl (desc : bool) (prev : A) (l : list A) :
  incl (fst (run_more cmp desc prev l)) l.
Proof.
  intros x I. rewrite <- (run_more_app desc prev l). apply in_or_app. now left.
Qed.

Lemma run_more_rises (l : list A) :
  forall prev, incl (prev :: l) L ->
  StronglySorted (cle cmp) (prev :: fst (run_more cmp false prev l)).
Proof.
  induction l as [ | cur l IH]; intros prev I.
  - repeat constructor.
  - assert (Ipv : In prev L) by (apply I; now left).
    assert (Icur : In cur L) by (apply I; right; now left).
    assert (I' : incl (cur :: l) L) by (intros x Ix; apply I; now right).
    rewrite run_more_cons.
    destruct (Z.leb_spec 0 (cmp cur prev)) as [Ge | Lt]; [ | repeat constructor].
    specialize (IH cur I').
    assert (Hpc : cle cmp prev cur) by now apply cf_ge_cle.
    constructor; [assumption | ].
    constructor; [assumption | ].
    inversion IH as [ | ? ? _ F]; subst.
    rewrite Forall_forall in F |- *. intros e Ie.
    apply (cle_trans C) with (b := cur); auto.
    apply I'. right. now apply (@run_more_incl false cur l).
Qed.

Lemma run_more_falls (l : list A) :
  forall prev, incl (prev :: l) L ->
  StronglySorted (falls cmp) (prev :: fst (run_more cmp true prev l)).
Proof.
  induction l as [ | cur l IH]; intros prev I.
  - repeat constructor.
  - assert (Ipv : In prev L) by (apply I; now left).
    assert (Icur : In cur L) by (apply I; right; now left).
    assert (I' : incl (cur :: l) L) by (intros x Ix; apply I; now right).
    rewrite run_more_cons.
    destruct (Z.ltb_spec (cmp cur prev) 0) as [Lt | Ge]; [ | repeat constructor].
    specialize (IH cur I').
    constructor; [assumption | ].
    constructor; [assumption | ].
    inversion IH as [ | ? ? _ F]; subst.
    rewrite Forall_forall in F |- *. intros e Ie. unfold falls.
    apply (cf_trans_lt C) with (b := cur); auto; try exact (F e Ie).
    apply I'. right. now apply (@run_more_incl true cur l).
Qed.

Lemma sorted_weaken (R R' : A -> A -> Prop) (l : list A) :
  (forall a b, R a b -> R' a b) -> StronglySorted R l -> StronglySorted R' l.
Proof.
  intros W. induction 1 as [ | x l S IH F]; constructor; trivial.
  rewrite Forall_forall in F |- *. auto.
Qed.

Lemma sorted_rev (R : A -> A -> Prop) (l : list A) :
  StronglySorted R l -> StronglySorted (fun a b => R b a) (rev l).
Proof.
  induction 1 as [ | x l S IH F]; simpl; [constructor | ].
  apply sorted_around.
  - now rewrite app_nil_r.
  - now apply Forall_rev.
  - constructor.
Qed.

Lemma run_split_fst (x0 x1 : A) (l : list A) :
  fst (run_split cmp (x0 :: x1 :: l))
  = x0 :: x1 :: fst (run_more cmp (cmp x1 x0 <? 0) x1 l).
Proof. simpl. now destruct (run_more cmp (cmp x1 x0 <? 0) x1 l). Qed.

Lemma run_split_incl (l : list A) : incl (fst (run_split cmp l)) l.
Proof.
  intros x I. rewrite <- (run_split_app l). apply in_or_app. now left.
Qed.

(** The run found at the start of the list rises, or falls strictly. *)
Lemma run_split_shape (l : list A) :
  incl l L ->
  if descends cmp l then StronglySorted (falls cmp) (fst (run_split cmp l))
  else StronglySorted (cle cmp) (fst (run_split cmp l)).
Proof.
  intros I. destruct l as [ | x0 [ | x1 l]];
    try solve [simpl; repeat constructor].
  rewrite run_split_fst. unfold descends.
  assert (I0 : In x0 L) by (apply I; now left).
  assert (I1 : In x1 L) by (apply I; right; now left).
  assert (I' : incl (x1 :: l) L) by (intros x Ix; apply I; now right).
  destruct (Z.ltb_spec (cmp x1 x0) 0) as [Lt | Ge].
  - pose proof (run_more_falls I') as S.
    constructor; [assumption | ]. constructor; [assumption | ].
    inversion S as [ | ? ? _ F]; subst.
    rewrite Forall_forall in F |- *. intros e Ie. unfold falls.
    apply (cf_trans_lt C) with (b := x1); auto; try exact (F e Ie).
    apply I'. right. now apply (@run_more_incl true x1 l).
  - pose proof (run_more_rises I') as S.
    assert (H01 : cle cmp x0 x1) by now apply cf_ge_cle.
    constructor; [assumption | ]. constructor; [assumption | ].
    inversion S as [ | ? ? _ F]; subst.
    rewrite Forall_forall in F |- *. intros e Ie.
    apply (cle_trans C) with (b := x1); auto.
    apply I'. right. now apply (@run_more_incl false x1 l).
Qed.

Lemma make_run_sorted (l : list A) :
  incl l L -> StronglySorted (cle cmp) (fst (make_run cmp l)).
Proof.
  intros I. rewrite make_run_split. cbn [fst].
  pose proof (run_split_shape I) as S.
  destruct (descends cmp l); trivial.
  apply sorted_rev in S.
  apply (sorted_weaken (R := fun a b => falls cmp b a)); trivial.
  unfold falls, cle. intros a b H. lia.
Qed.

(** In a run that falls strictly no two elements compare equal. *)
Lemma falls_ties_short (z : A) (l : list A) :
  In z L -> incl l L -> StronglySorted (falls cmp) l ->
  (List.length (ties cmp z l) <= 1)%nat.
Proof.
  intros Iz. induction l as [ | a l IH]; intros I S; simpl; [lia | ].
  assert (Ia : In a L) by (apply I; now left).
  assert (I' : incl l L) by (intros x Ix; apply I; now right).
  inversion S as [ | ? ? S' F]; subst.
  destruct (cmp z a =? 0) eqn:Ea; [ | now apply IH].
  apply Z.eqb_eq in Ea. fold (ties cmp z l).
  unfold ties. rewrite filter_none; [simpl; lia | ].
  intros e Ie. apply Z.eqb_neq. intros Ee.
  rewrite Forall_forall in F. specialize (F e Ie). unfold falls in F.
  pose proof (cf_sym C z a Iz Ia Ea) as Eaz.
  pose proof (cf_trans_eq C a z e Ia Iz (I' e Ie) Eaz Ee) as Eae.
  pose proof (cf_sym C a e Ia (I' e Ie) Eae). lia.
Qed.

Lemma rev_short (l : list A) : (List.length l <= 1)%nat -> rev l = l.
Proof. destruct l as [ | a [ | b l]]; simpl; trivial; lia. Qed.

Lemma make_run_ties (z : A) (l : list A) :
  In z L -> incl l L ->
  ties cmp z (fst (make_run cmp l)) = ties cmp z (fst (run_split cmp l)).
Proof.
  intros Iz I. rewrite make_run_split. cbn [fst].
  pose proof (run_split_shape I) as S.
  destruct (descends cmp l); trivial.
  unfold ties. rewrite filter_rev. apply rev_short.
  apply falls_ties_short; trivial.
  intros x Ix. apply I. now apply run_split_incl.
Qed.

End OnList.

(** Binary insertion with run detection meets the contract. *)
Theorem binary_insertion_sort_sorted (l : list A) :
  consistent cmp l -> StronglySorted (cle cmp) (binary_insertion_sort cmp l).
Proof.
  intros C. unfold binary_insertion_sort.
  pose proof (@make_run_sorted l C l (incl_refl l)) as S.
  assert (I : incl (fst (make_run cmp l) ++ snd (make_run cmp l)) l).
  { rewrite make_run_split. cbn [fst snd]. intros x Ix.
    rewrite <- (run_split_app l). apply in_app_or in Ix. apply in_or_app.
    destruct Ix as [Ix | Ix]; [left | now right].
    destruct (descends cmp l); [now apply in_rev | assumption]. }
  destruct (make_run cmp l) as [run rest]. cbn [fst snd] in *.
  now apply fold_binary_insert_sorted with (L := l).
Qed.

Theorem binary_insertion_sort_stable (l : list A) (z : A) :
  consistent cmp l -> In z l ->
  ties cmp z (binary_insertion_sort cmp l) = ties cmp z l.
Proof.
  intros C Iz. unfold binary_insertion_sort.
  pose proof (@make_run_sorted l C l (incl_refl l)) as S.
  pose proof (@make_run_ties l C z l Iz (incl_refl l)) as T.
  assert (I : incl (fst (make_run cmp l) ++ snd (make_run cmp l)) l).
  { rewrite make_run_split. cbn [fst snd]. intros x Ix.
    rewrite <- (run_split_app l). apply in_app_or in Ix. apply in_or_app.
    destruct Ix as [Ix | Ix]; [left | now right].
    destruct (descends cmp l); [now apply in_rev | assumption]. }
  assert (R : snd (make_run cmp l) = snd (run_split cmp l))
    by now rewrite make_run_split.
  destruct (make_run cmp l) as [run rest]. cbn [fst snd] in *.
  rewrite fold_binary_insert_ties with (L := l); trivial.
  unfold ties in *. rewrite filter_app, T, R, <- filter_app.
  now rewrite run_split_app.
Qed.

End BinaryInsertionFacts.

Definition binary_insertion_engine : Engine :=
  {| array_sort := binary_insertion_sort;
     array_sort_perm := binary_insertion_sort_perm;
     array_sort_sorted := binary_insertion_sort_sorted;
     array_sort_stable :=
       fun A cmp l C x I => @binary_insertion_sort_stable A cmp l x C I |}.

(** *** Deciding relative order *)

Section Before.

Variable A : Type.
Variable eqb : A -> A -> bool.
Hypothesis eqb_spec : forall a b, eqb a b = true <-> a = b.

Fixpoint beforeb (a b : A) (l : list A) : bool :=
  match l with
  | [] => false
  | x :: l' => (eqb x a && existsb (eqb b) l') || beforeb a b l'
  end.

Lemma beforeb_spec (a b : A) (l : list A) :
  beforeb a b l = true <-> before a b l.
Proof.
  split.
  - induction l as [ | x l IH]; simpl; [discriminate | ].
    intros H. apply orb_true_iff in H. destruct H as [H | H].
    + apply andb_true_iff in H. destruct H as [Ha Hb].
      apply eqb_spec in Ha. subst x.
      apply existsb_exists in Hb. destruct Hb as (y & Iy & Ey).
      apply eqb_spec in Ey. subst y.
      apply in_split in Iy. destruct Iy as (l2 & l3 & ->).
      now exists [], l2, l3.
    + destruct (IH H) as (l1 & l2 & l3 & ->). now exists (x :: l1), l2, l3.
  - intros (l1 & l2 & l3 & ->). induction l1 as [ | x l1 IH]; simpl.
    + apply orb_true_iff. left. apply andb_true_iff. split.
      * now apply eqb_spec.
      * apply existsb_exists. exists b. split; [ | now apply eqb_spec].
        apply in_or_app. right. now left.
    + rewrite IH. apply orb_true_r.
Qed.

End Before.

End ArraySort.

(** ** The timeline of the Shorter Works page *)

Module Timeline.

Import Js ArraySort.
Local Open Scope Z_scope.
Local Open Scope string_scope.
Local Open Scope list_scope.

(** *** The document, as far as the script reads and writes it *)

(** A [span] inside a work: its class list, its [id] attribute when it has
    one, and its text. *)
Record span := {
  span_class : list string;
  span_id : option string;
  span_text : string
}.

(** An element child of the timeline: its tag, the spans below it in
    document order, and the rest of its markup. *)
Record element := {
  tag : string;
  spans : list span;
  content : string
}.

(** A child node of the timeline: white space and other text between the
    works, or an element. *)
Inductive node :=
| TextNode (data : string)
| Elem (e : element).

Definition span_eq_dec (a b : span) : {a = b} + {a <> b}.
Proof.
  decide equality;
    [ apply string_dec
    | decide equality; apply string_dec
    | apply (list_eq_dec string_dec) ].
Defined.

Definition element_eq_dec (a b : element) : {a = b} + {a <> b}.
Proof.
  decide equality;
    [ apply string_dec | apply (list_eq_dec span_eq_dec) | apply string_dec ].
Defined.

Definition node_eq_dec (a b : node) : {a = b} + {a <> b}.
Proof.
  decide equality; [ apply string_dec | apply element_eq_dec ].
Defined.

Definition same_node (a b : node) : bool :=
  if node_eq_dec a b then true else false.

(** A styling call of the script, kept in the order it was made. *)
Inductive css_call :=
| Css (selector property value : string)
| RemoveAttr (selector attribute : string).

(** The page: the child nodes of [#timeline] ([None] when the document has
    no such element, so that [$('#timeline')] is the empty set), the console
    and the styling calls made so far. *)
Record page := {
  timeline : option (list node);
  out : console;
  style : list css_call
}.

(** *** jQuery *)

(** [childSelector] is a tag name ([li]). *)
Definition matches (childSelector : string) (n : node) : bool :=
  match n with
  | Elem e => String.eqb (tag e) childSelector
  | TextNode _ => false
  end.

(** [parent.children(childSelector)]: the element children that match, in
    document order; nothing when [parent] is the empty set. *)
Definition children (parent : option (list node)) (childSelector : string)
  : list node :=
  match parent with
  | Some ns => filter (matches childSelector) ns
  | None => []
  end.

(** [$(keySelector, a)] for a selector [span.c], given by its class [c]: the
    spans below [a] that carry the class. *)
Definition has_class (c : string) (s : span) : bool :=
  existsb (String.eqb c) (span_class s).

Definition find (keySelector : string) (a : node) : list span :=
  match a with
  | Elem e => filter (has_class keySelector) (spans e)
  | TextNode _ => []
  end.

(** [.attr('id')]: the attribute of the first matched element. *)
Definition attr_id (m : list span) : option string :=
  match m with
  | s :: _ => span_id s
  | [] => None
  end.

(** [.text()]: the text of the matched elements, put together. *)
Definition text (m : list span) : string :=
  String.concat "" (map span_text m).

(** [parent.append(items)]: every item is taken from where it stands and
    put at the end of the parent, in the order of [items]; nothing happens
    when [parent] is the empty set.  A node is recognised among the child
    nodes by its content. *)
Definition append (parent : option (list node)) (items : list node)
  : option (list node) :=
  match parent with
  | Some ns =>
      Some (filter (fun n => negb (existsb (same_node n) items)) ns ++ items)
  | None => None
  end.

(** *** The script *)

(** The comparison function handed to [sort]. *)
Definition comparator (keySelector : string) (isdate : bool) (a b : node) : Z :=
  if isdate then
    let vA := attr_id (find keySelector a) in
    let vB := attr_id (find keySelector b) in
    if gt_attr vA vB then -1 else if lt_attr vA vB then 1 else 0
  else
    let vA := parseInt (text (find keySelector a)) in
    let vB := parseInt (text (find keySelector b)) in
    if gt_num vA vB then -1 else if lt_num vA vB then 1 else 0.

(** [sortUsingNestedText]: the new child nodes of the parent and the line
    written to the console (a jQuery object put after a string reads
    [object Object]). *)
Definition sortUsingNestedText (E : Engine) (parent : option (list node))
    (childSelector keySelector : string) (isdate : bool)
  : option (list node) * (level * string) :=
  let items :=
    array_sort E (comparator keySelector isdate)
      (children parent childSelector) in
  (append parent items, (Log, "hi[object Object]")).

Definition restyle (shown hidden : string) : list css_call :=
  [ Css hidden "visibility" "hidden";
    Css shown "visibility" "visible";
    Css ".color" "visibility" "hidden";
    Css ".content" "background-color" "#fff";
    Css ".content" "color" "#000";
    RemoveAttr "a" "style" ].

Definition sortwc (E : Engine) (pg : page) : page :=
  let '(parent, line) := sortUsingNestedText E (timeline pg) "li" "wc" false in
  {| timeline := parent;
     out := out pg ++ [line];
     style := style pg ++ restyle ".wc" ".date" |}.

Definition sortdate (E : Engine) (pg : page) : page :=
  let '(parent, line) := sortUsingNestedText E (timeline pg) "li" "date" true in
  {| timeline := parent;
     out := out pg ++ [line];
     style := style pg ++ restyle ".date" ".wc" |}.

(** *** The specification's vocabulary *)

(** The two sort keys offered by the page. *)
Inductive sort_key := ByDate | ByWordCount.

Definition resort (E : Engine) (k : sort_key) (pg : page) : page :=
  match k with
  | ByDate => sortdate E pg
  | ByWordCount => sortwc E pg
  end.

(** The works of the page, in document order. *)
Definition items (pg : page) : list node := children (timeline pg) "li".

(** All child nodes of the timeline. *)
Definition nodes (pg : page) : list node :=
  match timeline pg with
  | Some ns => ns
  | None => []
  end.

(** The keys of a work as the comparison function extracts them. *)
Definition date_of (a : node) : option string := attr_id (find "date" a).

Definition wc_of (a : node) : number := parseInt (text (find "wc" a)).

Definition compare_by (k : sort_key) : node -> node -> Z :=
  match k with
  | ByDate => comparator "date" true
  | ByWordCount => comparator "wc" false
  end.

(** A work carries the key: its date span has an [id], or its word-count
    text reads as a number. *)
Definition has_key (k : sort_key) (a : node) : bool :=
  match k with
  | ByDate => match date_of a with Some _ => true | None => false end
  | ByWordCount => match wc_of a with Some _ => true | None => false end
  end.

(** In descending order of the key: every work carries the key, and none
    has a smaller key than a work that follows it. *)
Definition sorted_by (k : sort_key) (l : list node) : Prop :=
  Forall (fun a => has_key k a = true) l
  /\ StronglySorted (fun a b => compare_by k a b <= 0) l.

Definition warned (c : console) : bool :=
  existsb (fun e => level_eqb (fst e) Warn) c.

Definition failed (c : console) : bool :=
  existsb (fun e => level_eqb (fst e) Error) c.

(** A work of the page's markup: a date span, a word-count span and an
    (empty) colour span. *)
Definition work (date label wc title : string) : node :=
  Elem {| tag := "li";
          spans := [ {| span_class := ["date"]; span_id := Some date;
                        span_text := label |};
                     {| span_class := ["wc"]; span_id := None;
                        span_text := wc |};
                     {| span_class := ["color"]; span_id := None;
                        span_text := "" |} ];
          content := title |}.

(** *** Sample pages *)

(** Works of the page whose dates tie (two poems of 2020-08-06). *)
Definition page_ties : page :=
  {| timeline :=
       Some [ TextNode " ";
              work "2020-09-10" "Summer 2020" "1200" "synthia.py";
              TextNode " ";
              work "2020-08-06" "August 2020" "170" "anatomicon";
              TextNode " ";
              work "2020-08-06" "August 2020" "190" "to my ghost by the sound";
              TextNode " ";
              work "2020-06-10" "June 2020" "130" "hurricane eye, neat" ];
     out := [];
     style := [] |}.

(** Three works with word counts 170, 1200 and 90. *)
Definition page_counts : page :=
  {| timeline :=
       Some [ work "2020-08-06" "August 2020" "170" "anatomicon";
              work "2020-09-10" "Summer 2020" "1200" "synthia.py";
              work "2019-09-12" "September 2019" "90" "a short poem" ];
     out := [];
     style := [] |}.

(** Three works with dates 2019-01-01, 2020-09-10 and 2018-06-19. *)
Definition page_dates : page :=
  {| timeline :=
       Some [ work "2019-01-01" "January 2019" "300" "a poem";
              work "2020-09-10" "Summer 2020" "1200" "synthia.py";
              work "2018-06-19" "June 2018" "3200" "a story" ];
     out := [];
     style := [] |}.

(** Two works of 200 words each. *)
Definition tie_first : node :=
  work "2019-05-01" "May 2019" "200" "first of two poems".

Definition tie_second : node :=
  work "2019-05-01" "May 2019" "200" "second of two poems".

(** Works of which three show no word count: their count span is empty, and
    [parseInt] reads NaN from it. *)
Definition page_blank_counts : page :=
  {| timeline :=
       Some [ work "2020-03-18" "March 2020" "" "a review";
              work "2020-02-29" "February 2020" "" "an interview";
              work "2019-12-15" "December 2019" "100" "a poem";
              work "2019-11-15" "November 2019" "" "a comic";
              tie_first;
              work "2019-01-04" "January 2019" "300" "three poems";
              tie_second ];
     out := [];
     style := [] |}.

(** A document without [#timeline]. *)
Definition page_without_timeline : page :=
  {| timeline := None; out := []; style := [] |}.

(** *** Order of the keys *)

Definition sign (c : comparison) : Z :=
  match c with
  | Gt => -1
  | Lt => 1
  | Eq => 0
  end.

Lemma ascii_compare_refl (a : ascii) : Ascii.compare a a = Eq.
Proof. unfold Ascii.compare. apply N.compare_refl. Qed.

Lemma string_compare_refl (s : string) : String.compare s s = Eq.
Proof.
  induction s as [ | a s IH]; simpl; [reflexivity | ].
  now rewrite ascii_compare_refl.
Qed.

Lemma string_compare_lt_trans (a b c : string) :
  String.compare a b = Lt -> String.compare b c = Lt -> String.compare a c = Lt.
Proof.
  revert b c. induction a as [ | x a IH]; intros [ | y b] [ | z c]; simpl;
    try discriminate; trivial.
  unfold Ascii.compare.
  destruct (N.compare_spec (N_of_ascii x) (N_of_ascii y)) as [E1 | L1 | G1];
    try discriminate;
    destruct (N.compare_spec (N_of_ascii y) (N_of_ascii z)) as [E2 | L2 | G2];
    try discriminate; intros H1 H2.
  - rewrite E1, E2, N.compare_refl. eauto.
  - rewrite E1. apply N.compare_lt_iff in L2. now rewrite L2.
  - rewrite <- E2. apply N.compare_lt_iff in L1. now rewrite L1.
  - assert (L : (N_of_ascii x < N_of_ascii z)%N) by lia.
    apply N.compare_lt_iff in L. now rewrite L.
Qed.

Section KeyOrder.

Variables (A K : Type).
Variable kcmp : K -> K -> comparison.
Hypothesis kcmp_refl : forall x, kcmp x x = Eq.
Hypothesis kcmp_eq : forall x y, kcmp x y = Eq -> x = y.
Hypothesis kcmp_antisym : forall x y, kcmp y x = CompOpp (kcmp x y).
Hypothesis kcmp_lt_trans :
  forall x y z, kcmp x y = Lt -> kcmp y z = Lt -> kcmp x z = Lt.

Variable key : A -> option K.
Variable cmp : A -> A -> Z.
Hypothesis cmp_key :
  forall a b x y, key a = Some x -> key b = Some y -> cmp a b = sign (kcmp x y).

(** On elements that all carry a key, a comparison function that answers
    by the order of the keys is consistent. *)
Lemma consistent_by_key (l : list A) :
  (forall a, In a l -> key a <> None) -> consistent cmp l.
Proof.
  intros Hk.
  assert (G : forall a, In a l -> exists x, key a = Some x).
  { intros a I. specialize (Hk a I). destruct (key a); [eauto | contradiction]. }
  constructor.
  - intros a Ia. destruct (G a Ia) as [x Hx].
    now rewrite (cmp_key Hx Hx), kcmp_refl.
  - intros a b Ia Ib. destruct (G a Ia) as [x Hx], (G b Ib) as [y Hy].
    rewrite (cmp_key Hx Hy), (cmp_key Hy Hx), (kcmp_antisym x y).
    now destruct (kcmp x y).
  - intros a b c Ia Ib Ic.
    destruct (G a Ia) as [x Hx], (G b Ib) as [y Hy], (G c Ic) as [z Hz].
    rewrite (cmp_key Hx Hy), (cmp_key Hy Hz), (cmp_key Hx Hz).
    destruct (kcmp x y) eqn:E1; try discriminate.
    destruct (kcmp y z) eqn:E2; try discriminate.
    apply kcmp_eq in E1, E2. subst. now rewrite kcmp_refl.
  - intros a b c Ia Ib Ic.
    destruct (G a Ia) as [x Hx], (G b Ib) as [y Hy], (G c Ic) as [z Hz].
    rewrite (cmp_key Hx Hy), (cmp_key Hy Hz), (cmp_key Hx Hz).
    destruct (kcmp x y) eqn:E1; simpl; try lia.
    destruct (kcmp y z) eqn:E2; simpl; try lia.
    intros _ _.
    assert (F1 : kcmp y x = Lt) by (rewrite kcmp_antisym, E1; reflexivity).
    assert (F2 : kcmp z y = Lt) by (rewrite kcmp_antisym, E2; reflexivity).
    pose proof (kcmp_lt_trans F2 F1) as F.
    rewrite kcmp_antisym in F. destruct (kcmp x z); simpl in *; try discriminate; lia.
  - intros a b c Ia Ib Ic.
    destruct (G a Ia) as [x Hx], (G b Ib) as [y Hy], (G c Ic) as [z Hz].
    rewrite (cmp_key Hx Hy), (cmp_key Hy Hz), (cmp_key Hx Hz).
    destruct (kcmp x y) eqn:E1; simpl; try lia.
    destruct (kcmp y z) eqn:E2; simpl; try lia.
    intros _ _. rewrite (kcmp_lt_trans E1 E2). simpl. lia.
Qed.

End KeyOrder.

Lemma comparator_date (a b : node) (x y : string) :
  date_of a = Some x -> date_of b = Some y ->
  compare_by ByDate a b = sign (String.compare x y).
Proof.
  unfold date_of, compare_by, comparator. intros -> ->. simpl.
  unfold str_gt, str_lt. now destruct (String.compare x y).
Qed.

Lemma comparator_wc (a b : node) (x y : Z) :
  wc_of a = Some x -> wc_of b = Some y ->
  compare_by ByWordCount a b = sign (Z.compare x y).
Proof.
  unfold wc_of, compare_by, comparator. intros -> ->. simpl.
  unfold Z.gtb, Z.ltb. now destruct (Z.compare x y).
Qed.

(** The script's comparison function is consistent for works that all
    carry the key. *)
Lemma compare_by_consistent (k : sort_key) (l : list node) :
  Forall (fun a => has_key k a = true) l -> consistent (compare_by k) l.
Proof.
  intros F. rewrite Forall_forall in F. destruct k.
  - apply consistent_by_key with (kcmp := String.compare) (key := date_of).
    + apply string_compare_refl.
    + apply String.compare_eq_iff.
    + intros x y. apply String.compare_antisym.
    + apply string_compare_lt_trans.
    + apply comparator_date.
    + intros a I. specialize (F a I). unfold has_key in F.
      destruct (date_of a); [discriminate | discriminate].
  - apply consistent_by_key with (kcmp := Z.compare) (key := wc_of).
    + apply Z.compare_refl.
    + apply Z.compare_eq.
    + intros x y. apply Z.compare_antisym.
    + intros x y z H1 H2. rewrite Z.compare_lt_iff in *. lia.
    + apply comparator_wc.
    + intros a I. specialize (F a I). unfold has_key in F.
      destruct (wc_of a); [discriminate | discriminate].
Qed.

(** *** What one call does to the timeline *)

Lemma same_node_spec (a b : node) : same_node a b = true <-> a = b.
Proof.
  unfold same_node. destruct (node_eq_dec a b) as [e | n]; split; intros H;
    trivial; [discriminate | contradiction].
Qed.

Lemma taken_spec (n : node) (l : list node) :
  existsb (same_node n) l = true <-> In n l.
Proof.
  rewrite existsb_exists. split.
  - intros (x & I & H). apply same_node_spec in H. now subst.
  - intros I. exists n. split; [assumption | now apply same_node_spec].
Qed.

Lemma filter_split (p : node -> bool) (l : list node) :
  Permutation l (filter (fun n => negb (p n)) l ++ filter p l).
Proof.
  induction l as [ | x l IH]; simpl; [constructor | ].
  destruct (p x); simpl.
  - now apply Permutation_cons_app.
  - now constructor.
Qed.

Lemma filter_rest_none (p : node -> bool) (l : list node) :
  filter p (filter (fun n => negb (p n)) l) = [].
Proof.
  induction l as [ | x l IH]; simpl; trivial.
  destruct (p x) eqn:M; simpl; [ | rewrite M]; apply IH.
Qed.

(** Appending a rearrangement of the selected children leaves the other
    child nodes in front, in their order, and the rearrangement behind. *)
Lemma append_rearranged (sel : string) (ns its : list node) :
  Permutation (filter (matches sel) ns) its ->
  append (Some ns) its = Some (filter (fun n => negb (matches sel n)) ns ++ its).
Proof.
  intros P. unfold append. do 2 f_equal.
  apply filter_ext_in. intros n I. f_equal.
  destruct (matches sel n) eqn:M.
  - apply taken_spec. apply (Permutation_in _ P). apply filter_In. auto.
  - destruct (existsb (same_node n) its) eqn:X; trivial.
    apply taken_spec in X. apply (Permutation_in _ (Permutation_sym P)) in X.
    apply filter_In in X. destruct X as [_ X]. congruence.
Qed.

Lemma children_rearranged (sel : string) (ns its : list node) :
  Permutation (filter (matches sel) ns) its ->
  children (append (Some ns) its) sel = its.
Proof.
  intros P. rewrite (@append_rearranged sel ns its P). simpl.
  rewrite filter_app.
  rewrite filter_rest_none. simpl.
  apply forallb_filter_id. apply forallb_forall. intros x I.
  apply (Permutation_in _ (Permutation_sym P)) in I.
  now apply filter_In in I.
Qed.

Section OneCall.

Variable E : Engine.
Variables (parent : option (list node)) (sel ksel : string) (isdate : bool).

Lemma sortUsingNestedText_children :
  children (fst (sortUsingNestedText E parent sel ksel isdate)) sel
  = array_sort E (comparator ksel isdate) (children parent sel).
Proof.
  unfold sortUsingNestedText. simpl. destruct parent as [ns | ]; simpl.
  - apply children_rearranged. apply array_sort_perm.
  - symmetry. apply Permutation_nil. apply (array_sort_perm E).
Qed.

Lemma sortUsingNestedText_nodes :
  match parent, fst (sortUsingNestedText E parent sel ksel isdate) with
  | Some ns, Some ns' => Permutation ns ns'
  | None, None => True
  | _, _ => False
  end.
Proof.
  unfold sortUsingNestedText. destruct parent as [ns | ]; cbn [fst];
    [ | exact I].
  rewrite (@append_rearranged sel ns _ (array_sort_perm E _ _)).
  etransitivity; [apply (filter_split (matches sel)) | ].
  apply Permutation_app_head, array_sort_perm.
Qed.

End OneCall.

Lemma timeline_resort (E : Engine) (k : sort_key) (pg : page) :
  timeline (resort E k pg)
  = match k with
    | ByDate => fst (sortUsingNestedText E (timeline pg) "li" "date" true)
    | ByWordCount => fst (sortUsingNestedText E (timeline pg) "li" "wc" false)
    end.
Proof. now destruct k. Qed.

(** After a call the works are the engine's arrangement of the works. *)
Lemma items_resort (E : Engine) (k : sort_key) (pg : page) :
  items (resort E k pg) = array_sort E (compare_by k) (items pg).
Proof.
  unfold items. rewrite timeline_resort.
  destruct k; apply sortUsingNestedText_children.
Qed.

Lemma nodes_resort (E : Engine) (k : sort_key) (pg : page) :
  Permutation (nodes pg) (nodes (resort E k pg)).
Proof.
  unfold nodes. rewrite timeline_resort.
  destruct k.
  - pose proof (sortUsingNestedText_nodes E (timeline pg) "li" "date" true) as H.
    destruct (timeline pg), (fst _); trivial; contradiction.
  - pose proof (sortUsingNestedText_nodes E (timeline pg) "li" "wc" false) as H.
    destruct (timeline pg), (fst _); trivial; contradiction.
Qed.

Lemma out_resort (E : Engine) (k : sort_key) (pg : page) :
  out (resort E k pg) = out pg ++ [(Log, "hi[object Object]")].
Proof. now destruct k. Qed.

(** *** Properties of the re-sorter *)

(** C1. Sorting by one key and then by another (or the same) neither loses
    nor duplicates a work: the works after the two calls are a
    rearrangement of the works before, every node occurs as often as
    before, and the same holds of all child nodes of the timeline. *)
Theorem resort_twice_same_items (E : Engine) (k1 k2 : sort_key) (pg : page) :
  Permutation (items pg) (items (resort E k2 (resort E k1 pg)))
  /\ (forall n, count_occ node_eq_dec (items (resort E k2 (resort E k1 pg))) n
                = count_occ node_eq_dec (items pg) n)
  /\ Permutation (nodes pg) (nodes (resort E k2 (resort E k1 pg))).
Proof.
  assert (P : Permutation (items pg) (items (resort E k2 (resort E k1 pg)))).
  { rewrite !items_resort.
    etransitivity; [apply (array_sort_perm E (compare_by k1)) | ].
    apply array_sort_perm. }
  split; [exact P | split].
  - intros n. symmetry. revert n. now apply Permutation_count_occ.
  - etransitivity; [apply (nodes_resort E k1) | apply nodes_resort].
Qed.

(** C2 (as amended). When every work carries the selected key, works whose
    keys compare equal keep their relative order: the works that tie with
    [a] stand after the call in the order they had before it, and if [a]
    stood before [b] it still does. *)
Theorem resort_stable (E : Engine) (k : sort_key) (pg : page) (a b : node) :
  Forall (fun x => has_key k x = true) (items pg) ->
  In a (items pg) ->
  compare_by k a b = 0 ->
  ties (compare_by k) a (items (resort E k pg))
    = ties (compare_by k) a (items pg)
  /\ (before a b (items pg) -> before a b (items (resort E k pg))).
Proof.
  intros K Ia Eab.
  pose proof (compare_by_consistent k K) as C.
  assert (T : ties (compare_by k) a (items (resort E k pg))
              = ties (compare_by k) a (items pg)).
  { rewrite items_resort. now apply array_sort_stable. }
  split; [exact T | ].
  apply ties_before with (cmp := compare_by k); trivial.
  now apply (cf_refl C).
Qed.

Lemma sorted_items_fixed (E : Engine) (k : sort_key) (l : list node) :
  sorted_by k l -> array_sort E (compare_by k) l = l.
Proof.
  intros [K S].
  apply array_sort_sorted_id; [now apply compare_by_consistent | exact S].
Qed.

(** C3. A sequence of works already in descending order of the key (each
    work carrying it) is returned unchanged by a call with that key. *)
Theorem resort_sorted_unchanged (E : Engine) (k : sort_key) (pg : page) :
  sorted_by k (items pg) ->
  items (resort E k pg) = items pg.
Proof.
  intros S. rewrite items_resort. now apply sorted_items_fixed.
Qed.

(** Sorting twice by the same key gives what sorting once gives. *)
Lemma resort_idempotent (E : Engine) (k : sort_key) (pg : page) :
  Forall (fun x => has_key k x = true) (items pg) ->
  items (resort E k (resort E k pg)) = items (resort E k pg).
Proof.
  intros K.
  assert (K' : Forall (fun x => has_key k x = true) (items (resort E k pg))).
  { rewrite items_resort.
    apply (Permutation_Forall (array_sort_perm E (compare_by k) (items pg)) K). }
  rewrite (items_resort E k (resort E k pg)).
  apply sorted_items_fixed. split; [exact K' | ].
  rewrite items_resort.
  apply (array_sort_sorted E). now apply compare_by_consistent.
Qed.

(** C4. Works with word counts 170, 1200 and 90 come out in the order
    1200, 170, 90: the counts are compared as numbers. *)
Theorem resort_by_word_count (E : Engine) (pg : page) (a b c : node) :
  items pg = [a; b; c] ->
  wc_of a = Some 170 -> wc_of b = Some 1200 -> wc_of c = Some 90 ->
  items (resort E ByWordCount pg) = [b; a; c].
Proof.
  intros I Ha Hb Hc. rewrite items_resort, I.
  rewrite array_sort_unique.
  - pose proof (@comparator_wc b c _ _ Hb Hc) as Hbc.
    pose proof (@comparator_wc a b _ _ Ha Hb) as Hab.
    pose proof (@comparator_wc a c _ _ Ha Hc) as Hac.
    remember (compare_by ByWordCount) as cmp. simpl in Hbc, Hab, Hac |- *.
    rewrite Hbc. simpl. rewrite Hab. simpl. now rewrite Hac.
  - apply compare_by_consistent.
    repeat constructor; unfold has_key; now rewrite ?Ha, ?Hb, ?Hc.
Qed.

(** C5. Works dated 2019-01-01, 2020-09-10 and 2018-06-19 come out in the
    order 2020-09-10, 2019-01-01, 2018-06-19: the date tokens are compared
    as strings. *)
Theorem resort_by_date (E : Engine) (pg : page) (a b c : node) :
  items pg = [a; b; c] ->
  date_of a = Some "2019-01-01" -> date_of b = Some "2020-09-10" ->
  date_of c = Some "2018-06-19" ->
  items (resort E ByDate pg) = [b; a; c].
Proof.
  intros I Ha Hb Hc. rewrite items_resort, I.
  rewrite array_sort_unique.
  - pose proof (@comparator_date b c _ _ Hb Hc) as Hbc.
    pose proof (@comparator_date a b _ _ Ha Hb) as Hab.
    pose proof (@comparator_date a c _ _ Ha Hc) as Hac.
    remember (compare_by ByDate) as cmp. simpl in Hbc, Hab, Hac |- *.
    rewrite Hbc. simpl. rewrite Hab. simpl. now rewrite Hac.
  - apply compare_by_consistent.
    repeat constructor; unfold has_key; now rewrite ?Ha, ?Hb, ?Hc.
Qed.

(** C6 (as amended). When the timeline is missing, or holds no work, a call
    leaves the timeline as it is and writes one line to the console: the
    line every call writes, at log level.  Nothing is written at warning or
    error level. *)
Theorem resort_nothing_to_sort (E : Engine) (k : sort_key) (pg : page) :
  items pg = [] ->
  timeline (resort E k pg) = timeline pg
  /\ out (resort E k pg) = out pg ++ [(Log, "hi[object Object]")]
  /\ warned (out (resort E k pg)) = warned (out pg)
  /\ failed (out (resort E k pg)) = failed (out pg).
Proof.
  intros I.
  assert (S : forall ksel isdate,
    fst (sortUsingNestedText E (timeline pg) "li" ksel isdate) = timeline pg).
  { intros ksel isdate. unfold sortUsingNestedText. cbn [fst].
    unfold items in I. rewrite I.
    assert (N : array_sort E (comparator ksel isdate) [] = [])
      by (apply Permutation_nil, (array_sort_perm E)).
    rewrite N. destruct (timeline pg) as [ns | ]; trivial.
    simpl. rewrite app_nil_r. f_equal.
    apply forallb_filter_id. now apply forallb_forall. }
  split; [rewrite timeline_resort; destruct k; apply S | ].
  rewrite out_resort. split; [reflexivity | ].
  unfold warned, failed. rewrite !existsb_app. simpl.
  now rewrite !orb_false_r.
Qed.

(** *** The properties at sample pages *)

Lemma resort_stable_at_ties :
  before (work "2020-08-06" "August 2020" "170" "anatomicon")
         (work "2020-08-06" "August 2020" "190" "to my ghost by the sound")
         (items (resort insertion_engine ByDate page_ties)).
Proof.
  refine (proj2 (@resort_stable insertion_engine ByDate page_ties _ _ _ _ _) _).
  - repeat constructor.
  - simpl. auto.
  - reflexivity.
  - exists [work "2020-09-10" "Summer 2020" "1200" "synthia.py"], [],
      [work "2020-06-10" "June 2020" "130" "hurricane eye, neat"].
    reflexivity.
Defined.

Lemma resort_sorted_unchanged_at_ties :
  items (resort insertion_engine ByDate page_ties) = items page_ties.
Proof.
  apply (@resort_sorted_unchanged insertion_engine ByDate page_ties).
  split.
  - repeat constructor.
  - repeat first [apply SSorted_nil | apply SSorted_cons
                 | apply Forall_nil | apply Forall_cons];
      vm_compute; discriminate.
Defined.

Lemma resort_by_word_count_at_counts :
  items (resort insertion_engine ByWordCount page_counts)
  = [ work "2020-09-10" "Summer 2020" "1200" "synthia.py";
      work "2020-08-06" "August 2020" "170" "anatomicon";
      work "2019-09-12" "September 2019" "90" "a short poem" ].
Proof.
  apply (@resort_by_word_count insertion_engine page_counts); reflexivity.
Defined.

Lemma resort_by_date_at_dates :
  items (resort insertion_engine ByDate page_dates)
  = [ work "2020-09-10" "Summer 2020" "1200" "synthia.py";
      work "2019-01-01" "January 2019" "300" "a poem";
      work "2018-06-19" "June 2018" "3200" "a story" ].
Proof.
  apply (@resort_by_date insertion_engine page_dates); reflexivity.
Defined.

Lemma resort_nothing_to_sort_without_timeline :
  timeline (resort insertion_engine ByDate page_without_timeline) = None
  /\ out (resort insertion_engine ByDate page_without_timeline)
     = [(Log, "hi[object Object]")]
  /\ warned (out (resort insertion_engine ByDate page_without_timeline)) = false
  /\ failed (out (resort insertion_engine ByDate page_without_timeline)) = false.
Proof.
  apply (@resort_nothing_to_sort insertion_engine ByDate page_without_timeline).
  reflexivity.
Defined.

(** Against C6 as stated: without [#timeline] the call writes no warning,
    whichever key is chosen. *)
Lemma resort_without_timeline_logs_no_warning :
  items page_without_timeline = []
  /\ warned (out (resort insertion_engine ByDate page_without_timeline)) = false
  /\ warned (out (resort insertion_engine ByWordCount page_without_timeline))
     = false.
Proof. repeat split. Qed.

(** Against C2 as stated: with works that show no word count, binary
    insertion (an engine that meets the contract) puts the second of two
    works with 200 words in front of the first. *)
Lemma resort_unstable_with_blank_counts :
  compare_by ByWordCount tie_first tie_second = 0
  /\ before tie_first tie_second (items page_blank_counts)
  /\ items (resort binary_insertion_engine ByWordCount page_blank_counts)
     = [ work "2020-03-18" "March 2020" "" "a review";
         work "2020-02-29" "February 2020" "" "an interview";
         work "2019-01-04" "January 2019" "300" "three poems";
         tie_second;
         work "2019-12-15" "December 2019" "100" "a poem";
         work "2019-11-15" "November 2019" "" "a comic";
         tie_first ]
  /\ ~ before tie_first tie_second
         (items (resort binary_insertion_engine ByWordCount page_blank_counts)).
Proof.
  split; [reflexivity | split; [ | split]].
  - apply (beforeb_spec same_node same_node_spec). reflexivity.
  - vm_compute. reflexivity.
  - intros B. apply (beforeb_spec same_node same_node_spec) in B.
    vm_compute in B. discriminate.
Qed.

End Timeline.

(** ** The verification scripts

    Each script keeps two flags, prints to the console and ends the process
    with a code.  A check is a step from one such state to the next. *)

Module Script.

Import Js.
Local Open Scope string_scope.
Local Open Scope list_scope.

Record run := {
  hasErrors : bool;
  hasWarnings : bool;
  printed : console
}.

Definition step := run -> run.

(** [console.log], [console.warn] and [console.error].  The pictograph that
    starts a message in the scripts is left out of the text. *)
Definition say (l : level) (msg : string) : step :=
  fun r => {| hasErrors := hasErrors r;
              hasWarnings := hasWarnings r;
              printed := printed r ++ [(l, msg)] |}.

Definition say_all (lines : console) : step :=
  fun r => {| hasErrors := hasErrors r;
              hasWarnings := hasWarnings r;
              printed := printed r ++ lines |}.

(** [hasErrors = true] and [hasWarnings = true]. *)
Definition flag_error : step :=
  fun r => {| hasErrors := true;
              hasWarnings := hasWarnings r;
              printed := printed r |}.

Definition flag_warning : step :=
  fun r => {| hasErrors := hasErrors r;
              hasWarnings := true;
              printed := printed r |}.

Definition skip : step := fun r => r.

Definition seq (a b : step) : step := fun r => b (a r).

Notation "a ;; b" := (seq a b) (at level 61, right associativity).

(** [list.forEach(f)]. *)
Definition each (A : Type) (f : A -> step) (l : list A) : step :=
  fun r => fold_left (fun r' x => f x r') l r.

(** The state a script starts in. *)
Definition start : run :=
  {| hasErrors := false; hasWarnings := false; printed := [] |}.

(** The code of [process.exit] in the final summary. *)
Definition exit_code (r : run) : nat := if hasErrors r then 1 else 0.

(** An error line, or a warning line, is among the lines printed. *)
Definition failed (c : console) : bool :=
  existsb (fun e => level_eqb (fst e) Error) c.

Definition warned (c : console) : bool :=
  existsb (fun e => level_eqb (fst e) Warn) c.

(** JavaScript's truth value of an attribute read with [getAttribute]:
    [null] and the empty string are false. *)
Definition truthy (a : option string) : bool :=
  match a with
  | Some s => negb (String.eqb s "")
  | None => false
  end.

(** [a || fallback] on an attribute value. *)
Definition or_else (a : option string) (fallback : string) : string :=
  match a with
  | Some s => if String.eqb s "" then fallback else s
  | None => fallback
  end.

Fixpoint drop_white (l : list ascii) : list ascii :=
  match l with
  | c :: l' => if is_white c then drop_white l' else l
  | [] => []
  end.

(** [s.trim()]. *)
Definition trim (s : string) : string :=
  string_of_list_ascii
    (rev (drop_white (rev (drop_white (list_ascii_of_string s))))).

Definition lower (c : ascii) : ascii :=
  let n := nat_of_ascii c in
  if (65 <=? n)%nat && (n <=? 90)%nat then ascii_of_nat (n + 32) else c.

(** [s.toLowerCase()]. *)
Definition toLowerCase (s : string) : string :=
  string_of_list_ascii (map lower (list_ascii_of_string s)).

(** [hay.includes(needle)]. *)
Fixpoint includes (needle hay : string) : bool :=
  String.prefix needle hay
  || match hay with
     | String _ hay' => includes needle hay'
     | EmptyString => false
     end.

(** A step prints an error line exactly when it raises the error flag. *)
Definition tracked (c : step) : Prop :=
  forall r, failed (printed r) = hasErrors r ->
            failed (printed (c r)) = hasErrors (c r).

Lemma failed_app (c d : console) : failed (c ++ d) = failed c || failed d.
Proof. apply existsb_app. Qed.

Lemma warned_app (c d : console) : warned (c ++ d) = warned c || warned d.
Proof. apply existsb_app. Qed.

Lemma tracked_seq (a b : step) : tracked a -> tracked b -> tracked (a ;; b).
Proof. intros Ha Hb r H. unfold seq. auto. Qed.

Lemma tracked_skip : tracked skip.
Proof. intros r H. exact H. Qed.

Lemma tracked_say_log (msg : string) : tracked (say Log msg).
Proof.
  intros r H. simpl. rewrite failed_app. simpl. now rewrite !orb_false_r.
Qed.

Lemma tracked_say_warn (msg : string) : tracked (say Warn msg).
Proof.
  intros r H. simpl. rewrite failed_app. simpl. now rewrite !orb_false_r.
Qed.

Lemma tracked_flag_warning : tracked flag_warning.
Proof. intros r H. exact H. Qed.

Lemma tracked_error (msg : string) : tracked (say Error msg ;; flag_error).
Proof.
  intros r H. unfold seq. simpl. rewrite failed_app. simpl.
  apply orb_true_r.
Qed.

Lemma tracked_if (b : bool) (c d : step) :
  tracked c -> tracked d -> tracked (if b then c else d).
Proof. now destruct b. Qed.

Lemma tracked_each (A : Type) (f : A -> step) (l : list A) :
  (forall x, tracked (f x)) -> tracked (each f l).
Proof.
  intros H. unfold each. induction l as [ | x l IH]; intros r Hr; simpl.
  - exact Hr.
  - apply IH. now apply H.
Qed.

Lemma count_zero (A : Type) (p : A -> bool) (l : list A) :
  (List.length (filter p l) =? 0)%nat = negb (existsb p l).
Proof.
  induction l as [ | x l IH]; simpl; trivial.
  destruct (p x); simpl; trivial.
Qed.

(** A loop that prints a line for each item found at fault changes no flag;
    what it prints is an error line exactly when the level is [Error] and
    some item is at fault. *)
Lemma each_say (A : Type) (bad : A -> bool) (l : level) (m : A -> string)
    (xs : list A) (r : run) :
  let r' := each (fun x => if bad x then say l (m x) else skip) xs r in
  hasErrors r' = hasErrors r
  /\ hasWarnings r' = hasWarnings r
  /\ failed (printed r')
     = failed (printed r) || (level_eqb l Error && existsb bad xs)
  /\ warned (printed r')
     = warned (printed r) || (level_eqb l Warn && existsb bad xs).
Proof.
  unfold each. revert r. induction xs as [ | x xs IH]; intros r; simpl.
  - now rewrite !andb_false_r, !orb_false_r.
  - destruct (IH ((if bad x then say l (m x) else skip) r))
      as (He & Hw & Hf & Hn).
    rewrite He, Hw, Hf, Hn. clear IH He Hw Hf Hn.
    destruct (bad x); simpl; [ | auto].
    rewrite failed_app, warned_app. simpl. rewrite !orb_false_r.
    destruct l; simpl; rewrite ?orb_false_r, ?orb_true_r, ?andb_false_r;
      repeat split; trivial; now rewrite <- ?orb_assoc.
Qed.

(** The shape of the counting checks: a line for each item at fault, then
    an error and the flag when the count is not zero. *)
Lemma tracked_counted (A : Type) (bad : A -> bool) (m : A -> string)
    (xs : list A) (ok none : step) (e : string) :
  tracked ok -> tracked none ->
  tracked (each (fun x => if bad x then say Error (m x) else skip) xs ;;
           if (List.length (filter bad xs) =? 0)%nat
              && (0 <? List.length xs)%nat
           then ok
           else if (List.length xs =? 0)%nat then none
           else say Error e ;; flag_error).
Proof.
  intros Hok Hnone r H. unfold seq at 1.
  destruct (each_say bad Error m xs r) as (He & _ & Hf & _).
  set (r1 := each (fun x => if bad x then say Error (m x) else skip) xs r) in *.
  rewrite count_zero. simpl in Hf.
  destruct (existsb bad xs) eqn:B; simpl.
  - assert (N : (List.length xs =? 0)%nat = false).
    { destruct xs; [discriminate | reflexivity]. }
    rewrite N. unfold seq. simpl. rewrite failed_app. simpl.
    apply orb_true_r.
  - assert (H1 : failed (printed r1) = hasErrors r1).
    { rewrite Hf, He, orb_false_r. exact H. }
    destruct (0 <? List.length xs)%nat; [now apply Hok | ].
    destruct (List.length xs =? 0)%nat; [now apply Hnone | ].
    now apply tracked_error.
Qed.

(** What a step does to the two flags: it raises the error flag exactly
    when [e] holds, the warning flag exactly when [w] holds, and lowers
    neither. *)
Definition flags (c : step) (e w : bool) : Prop :=
  forall r, hasErrors (c r) = hasErrors r || e
            /\ hasWarnings (c r) = hasWarnings r || w.

Lemma flags_say (l : level) (msg : string) : flags (say l msg) false false.
Proof. intros r. simpl. now rewrite !orb_false_r. Qed.

Lemma flags_skip : flags skip false false.
Proof. intros r. unfold skip. now rewrite !orb_false_r. Qed.

Lemma flags_flag_error : flags flag_error true false.
Proof. intros r. simpl. now rewrite orb_true_r, orb_false_r. Qed.

Lemma flags_flag_warning : flags flag_warning false true.
Proof. intros r. simpl. now rewrite orb_true_r, orb_false_r. Qed.

Lemma flags_seq (a b : step) (e w e' w' : bool) :
  flags a e w -> flags b e' w' -> flags (a ;; b) (e || e') (w || w').
Proof.
  intros Ha Hb r. unfold seq.
  destruct (Hb (a r)) as [-> ->]. destruct (Ha r) as [-> ->].
  now rewrite !orb_assoc.
Qed.

Lemma flags_if (b : bool) (c d : step) (e w e' w' : bool) :
  flags c e w -> flags d e' w' ->
  flags (if b then c else d) (if b then e else e') (if b then w else w').
Proof. now destruct b. Qed.


Lemma flags_eq (c : step) (e w e' w' : bool) :
  e = e' -> w = w' -> flags c e w -> flags c e' w'.
Proof. now intros -> ->. Qed.

(** The flags of a counting check: the error flag is raised exactly when
    some item is at fault. *)
Lemma flags_counted (A : Type) (bad : A -> bool) (m : A -> string)
    (xs : list A) (ok none : step) (e : string) :
  flags ok false false -> flags none false false ->
  flags (each (fun x => if bad x then say Error (m x) else skip) xs ;;
         if (List.length (filter bad xs) =? 0)%nat
            && (0 <? List.length xs)%nat
         then ok
         else if (List.length xs =? 0)%nat then none
         else say Error e ;; flag_error)
        (existsb bad xs) false.
Proof.
  intros Hok Hnone r. unfold seq.
  destruct (each_say bad Error m xs r) as (He & Hw & _ & _).
  cbv zeta in He, Hw.
  remember (each (fun x => if bad x then say Error (m x) else skip) xs r)
    as r1 eqn:R1.
  rewrite count_zero. clear R1.
  destruct (existsb bad xs) eqn:B; cbn [negb andb].
  - assert (N : (List.length xs =? 0)%nat = false).
    { destruct xs; [discriminate | reflexivity]. }
    rewrite N. cbn [hasErrors hasWarnings flag_error say].
    now rewrite Hw, orb_true_r, orb_false_r.
  - rewrite <- He, <- Hw.
    destruct (0 <? List.length xs)%nat eqn:P; [apply Hok | ].
    destruct (List.length xs =? 0)%nat eqn:N; [apply Hnone | ].
    exfalso. destruct xs as [ | x xs]; simpl in *; discriminate.
Qed.

Lemma flags_each_say (A : Type) (bad : A -> bool) (l : level)
    (m : A -> string) (xs : list A) :
  flags (each (fun x => if bad x then say l (m x) else skip) xs) false false.
Proof.
  intros r. destruct (each_say bad l m xs r) as (He & Hw & _ & _).
  cbv zeta in He, Hw. now rewrite He, Hw, !orb_false_r.
Qed.

(** A step whose effect on the flags does not depend on the state it starts
    in. *)
Definition steady (c : step) : Prop := exists e w, flags c e w.

(** One syntactic step of a proof about the flags of a check. *)
Ltac flags_step :=
  lazymatch goal with
  | |- flags (_ ;; _) _ _ => eapply flags_seq
  | |- flags (say _ _) _ _ => apply flags_say
  | |- flags skip _ _ => apply flags_skip
  | |- flags flag_error _ _ => apply flags_flag_error
  | |- flags flag_warning _ _ => apply flags_flag_warning
  | |- flags (if _ then _ else _) _ _ => eapply flags_if
  end.

(** A check with no variable part: its flags are found by running it. *)
Ltac flags_closed :=
  eapply flags_eq; [ | | repeat flags_step]; reflexivity.

Ltac steady_steps := do 2 eexists; repeat flags_step.

Lemma steady_seq (a b : step) : steady a -> steady b -> steady (a ;; b).
Proof.
  intros (e & w & Ha) (e' & w' & Hb). exists (e || e'), (w || w').
  now apply flags_seq.
Qed.

(** One syntactic step of a proof that a check is tracked. *)
Ltac tracked_step :=
  lazymatch goal with
  | |- tracked (say Error _ ;; flag_error) => apply tracked_error
  | |- tracked (_ ;; _) => apply tracked_seq
  | |- tracked (say Log _) => apply tracked_say_log
  | |- tracked (say Warn _) => apply tracked_say_warn
  | |- tracked skip => apply tracked_skip
  | |- tracked flag_warning => apply tracked_flag_warning
  | |- tracked (if _ then _ else _) => apply tracked_if
  end.

(** A script whose steps are all tracked ends with a non-zero code exactly
    when an error line was printed. *)
Lemma tracked_exit (c : step) :
  tracked c -> (exit_code (c start) <> 0 <-> failed (printed (c start)) = true).
Proof.
  intros H. unfold exit_code. rewrite (H start) by reflexivity.
  destruct (hasErrors (c start)); split; intros; congruence.
Qed.

End Script.

Example trim_padded : Script.trim "  a b  " = "a b"%string.
Proof. reflexivity. Qed.

Example includes_alt :
  Script.includes "alt=" "<img src='a.png' alt='me'>" = true.
Proof. reflexivity. Qed.

(** ** tests/accessibility.js *)

Module Accessibility.

Import Js Script.
Local Open Scope string_scope.
Local Open Scope list_scope.

(** A number inside a message. *)
Definition show (n : nat) : string := NilEmpty.string_of_uint (Nat.to_uint n).

(** What the script reads of the parsed document. *)
Record img := {
  img_src : option string;
  img_alt : option string
}.

Record control := {
  control_id : option string;
  control_aria_label : option string;
  control_aria_labelledby : option string;
  control_type : option string;
  (** whether [label[for=id]] selects something *)
  control_label_for : bool;
  control_outerHTML : string
}.

Record link := {
  link_textContent : string;
  link_aria_label : option string;
  link_href : option string
}.

Record button := {
  button_textContent : string;
  button_aria_label : option string;
  button_outerHTML : string
}.

Record document := {
  (** the [lang] attribute of [html], when there is an [html] element *)
  html_lang : option (option string);
  (** the levels of the headings [h1] to [h6], in document order *)
  headings : list nat;
  images : list img;
  inputs : list control;
  links : list link;
  buttons : list button;
  nav : bool;
  main : bool;
  header : bool;
  footer : bool
}.

(** A file of the site: absent, present but refused by the parser (with the
    parser's message), or parsed. *)
Inductive file :=
| Missing
| Unparsable (message : string)
| Parsed (doc : document).

(** Test 1: the language attribute. *)
Definition check_lang (doc : document) : step :=
  say Log "Checking language attributes..." ;;
  match html_lang doc with
  | Some lang =>
      if truthy lang then say Log "HTML has lang attribute"
      else say Error "HTML missing lang attribute" ;; flag_error
  | None => say Error "HTML missing lang attribute" ;; flag_error
  end.

(** Test 2: the heading hierarchy; [idx] is the index of the next heading
    and [previousLevel] the level of the one before it. *)
Fixpoint walk_headings (idx previousLevel : nat) (hs : list nat) : step :=
  match hs with
  | [] => skip
  | level :: hs' =>
      (if (idx =? 0)%nat && negb (level =? 1)%nat then
         say Warn ("First heading is <h" ++ show level ++ ">, should be <h1>") ;;
         flag_warning
       else skip) ;;
      (if (0 <? previousLevel)%nat && (previousLevel + 1 <? level)%nat then
         say Warn ("Heading level skipped from h" ++ show previousLevel
                   ++ " to h" ++ show level) ;;
         flag_warning
       else skip) ;;
      walk_headings (S idx) level hs'
  end.

Fixpoint headingIssues (previousLevel : nat) (hs : list nat) : nat :=
  match hs with
  | [] => 0
  | level :: hs' =>
      (if (0 <? previousLevel)%nat && (previousLevel + 1 <? level)%nat
       then 1 else 0) + headingIssues level hs'
  end.

Definition check_headings (doc : document) : step :=
  say Log "Checking heading hierarchy..." ;;
  walk_headings 0 0 (headings doc) ;;
  if (headingIssues 0 (headings doc) =? 0)%nat
     && (0 <? List.length (headings doc))%nat
  then say Log ("Heading hierarchy is correct ("
                ++ show (List.length (headings doc)) ++ " headings)")
  else if (List.length (headings doc) =? 0)%nat
  then say Log "No headings found"
  else skip.

(** Test 3: alternative text of images. *)
Definition alt_missing (i : img) : bool := negb (truthy (img_alt i)).

Definition alt_empty (i : img) : bool :=
  truthy (img_alt i)
  && match img_alt i with
     | Some alt => String.eqb (trim alt) ""
     | None => false
     end.

Definition check_image (i : img) : step :=
  let src := or_else (img_src i) "unknown" in
  let alt := img_alt i in
  if negb (truthy alt) then
    say Error ("Image missing alt attribute: " ++ src)
  else skip.

Definition missingAltCount (l : list img) : nat :=
  List.length (filter alt_missing l).

Definition emptyAltCount (l : list img) : nat :=
  List.length (filter alt_empty l).

Definition check_images (doc : document) : step :=
  let images := images doc in
  say Log "Checking images for alt text..." ;;
  each check_image images ;;
  if (missingAltCount images =? 0)%nat && (0 <? List.length images)%nat then
    say Log ("All " ++ show (List.length images)
             ++ " images have alt attributes") ;;
    if (0 <? emptyAltCount images)%nat then
      say Log (show (emptyAltCount images)
               ++ " images have empty alt (decorative)")
    else skip
  else if (List.length images =? 0)%nat then
    say Log "No images found"
  else
    say Error (show (missingAltCount images) ++ " out of "
               ++ show (List.length images)
               ++ " images missing alt attributes") ;;
    flag_error.

(** Test 4: labels of form controls. *)
Definition skipped_type (c : control) : bool :=
  match control_type c with
  | Some t => String.eqb t "hidden" || String.eqb t "submit"
              || String.eqb t "button"
  | None => false
  end.

Definition hasLabel (c : control) : bool :=
  truthy (control_id c) && control_label_for c.

Definition unlabeled (c : control) : bool :=
  negb (skipped_type c)
  && negb (hasLabel c)
  && negb (truthy (control_aria_label c))
  && negb (truthy (control_aria_labelledby c)).

Definition check_input (c : control) : step :=
  if unlabeled c then
    say Error ("Input missing label or aria-label: "
               ++ substring 0 50 (control_outerHTML c) ++ "...")
  else skip.

Definition check_inputs (doc : document) : step :=
  let inputs := inputs doc in
  let unlabeledInputs := List.length (filter unlabeled inputs) in
  say Log "Checking forms for accessibility..." ;;
  each check_input inputs ;;
  if (unlabeledInputs =? 0)%nat && (0 <? List.length inputs)%nat then
    say Log ("All " ++ show (List.length inputs)
             ++ " form controls have labels")
  else if (List.length inputs =? 0)%nat then
    say Log "No form controls found"
  else
    say Error (show unlabeledInputs ++ " out of " ++ show (List.length inputs)
               ++ " form controls missing labels") ;;
    flag_error.

(** Test 5: text of links. *)
Definition nonDescriptiveTexts : list string :=
  ["click here"; "here"; "read more"; "more"; "link"].

Definition link_text (l : link) : string :=
  toLowerCase (trim (link_textContent l)).

Definition link_empty (l : link) : bool :=
  String.eqb (link_text l) "" && negb (truthy (link_aria_label l)).

Definition link_vague (l : link) : bool :=
  negb (link_empty l)
  && existsb (String.eqb (link_text l)) nonDescriptiveTexts
  && negb (truthy (link_aria_label l)).

Definition check_link (l : link) : step :=
  if link_empty l then
    say Warn ("Link has no text content: "
              ++ match link_href l with Some h => h | None => "null" end)
  else if link_vague l then
    say Warn ("Link has non-descriptive text: " ++ link_text l)
  else skip.

Definition check_links (doc : document) : step :=
  let links := links doc in
  let emptyLinks := List.length (filter link_empty links) in
  let nonDescriptiveLinks := List.length (filter link_vague links) in
  say Log "Checking links for descriptive text..." ;;
  each check_link links ;;
  if (emptyLinks =? 0)%nat && (nonDescriptiveLinks =? 0)%nat
     && (0 <? List.length links)%nat then
    say Log ("All " ++ show (List.length links)
             ++ " links have descriptive text")
  else if (List.length links =? 0)%nat then
    say Log "No links found"
  else
    (if (0 <? emptyLinks)%nat then
       say Error (show emptyLinks ++ " links have no text") ;; flag_error
     else skip) ;;
    (if (0 <? nonDescriptiveLinks)%nat then
       say Warn (show nonDescriptiveLinks
                 ++ " links have non-descriptive text") ;;
       flag_warning
     else skip).

(** Test 6: accessible names of buttons. *)
Definition unnamed (b : button) : bool :=
  String.eqb (trim (button_textContent b)) ""
  && negb (truthy (button_aria_label b)).

Definition check_button (b : button) : step :=
  if unnamed b then
    say Error ("Button has no accessible name: "
               ++ substring 0 50 (button_outerHTML b) ++ "...")
  else skip.

Definition check_buttons (doc : document) : step :=
  let buttons := buttons doc in
  let unlabeledButtons := List.length (filter unnamed buttons) in
  say Log "Checking buttons for accessible names..." ;;
  each check_button buttons ;;
  if (unlabeledButtons =? 0)%nat && (0 <? List.length buttons)%nat then
    say Log ("All " ++ show (List.length buttons)
             ++ " buttons have accessible names")
  else if (List.length buttons =? 0)%nat then
    say Log "No buttons found"
  else
    say Error (show unlabeledButtons ++ " out of "
               ++ show (List.length buttons)
               ++ " buttons missing accessible names") ;;
    flag_error.

(** Test 7: landmarks. *)
Definition check_landmark (found : bool) (name : string) : step :=
  if found then say Log (name ++ " landmark found")
  else say Warn (name ++ " landmark missing") ;; flag_warning.

Definition check_landmarks (doc : document) : step :=
  say Log "Checking for ARIA landmarks..." ;;
  check_landmark (nav doc) "Navigation" ;;
  check_landmark (main doc) "Main" ;;
  check_landmark (header doc) "Header/banner" ;;
  check_landmark (footer doc) "Footer/contentinfo".

Definition testHTMLForAccessibility (f : file) (htmlPath pageName : string)
  : step :=
  say Log ("=== Testing " ++ pageName ++ " for accessibility ===") ;;
  match f with
  | Missing => say Error ("File not found: " ++ htmlPath) ;; flag_error
  | Unparsable message =>
      say Error ("Error parsing " ++ htmlPath ++ ": " ++ message) ;;
      flag_error
  | Parsed doc =>
      check_lang doc ;;
      check_headings doc ;;
      check_images doc ;;
      check_inputs doc ;;
      check_links doc ;;
      check_buttons doc ;;
      check_landmarks doc ;;
      say Log (pageName ++ " accessibility tests completed")
  end.

(** The files the script looks at. *)
Record site := {
  default_layout : file;
  header_include : file;
  footer_include : file;
  books_page : file;
  about_page : file
}.

(** [pagesToTest.forEach]: a page is tested only if its file exists. *)
Definition test_page (f : file) (path name : string) : step :=
  match f with
  | Missing => skip
  | _ => testHTMLForAccessibility f path name
  end.

(** Everything the script does before its final summary. *)
Definition checks (s : site) : step :=
  say Log "Starting accessibility compliance tests..." ;;
  testHTMLForAccessibility (default_layout s)
    "_layouts/default.html" "Default layout" ;;
  testHTMLForAccessibility (header_include s)
    "_includes/header.html" "Header include" ;;
  testHTMLForAccessibility (footer_include s)
    "_includes/footer.html" "Footer include" ;;
  test_page (books_page s) "_pages/books.html" "Books page" ;;
  test_page (about_page s) "_pages/about.md" "About page".

(** The final summary: the last lines printed and the exit code. *)
Definition summary (r : run) : console * nat :=
  if hasErrors r then
    ([(Log, "=== Test Summary ===");
      (Error, "Some accessibility tests FAILED. Please fix the errors above.")],
     1)
  else if hasWarnings r then
    ([(Log, "=== Test Summary ===");
      (Warn, "All critical accessibility tests passed, but there are some warnings to address.")],
     0)
  else
    ([(Log, "=== Test Summary ===");
      (Log, "All accessibility tests PASSED!")],
     0).

Definition exit_of (s : site) : nat := snd (summary (checks s start)).

(** *** Sample documents *)

(** A document whose one image is decorative, written with an empty
    [alt]. *)
Definition page_with_empty_alt : document :=
  {| html_lang := Some (Some "en");
     headings := [1];
     images := [ {| img_src := Some "assets/images/divider.png";
                    img_alt := Some "" |} ];
     inputs := [];
     links := [];
     buttons := [];
     nav := true; main := true; header := true; footer := true |}.

(** The same image with a blank inside the quotes. *)
Definition page_with_blank_alt : document :=
  {| html_lang := Some (Some "en");
     headings := [1];
     images := [ {| img_src := Some "assets/images/divider.png";
                    img_alt := Some " " |} ];
     inputs := [];
     links := [];
     buttons := [];
     nav := true; main := true; header := true; footer := true |}.

(** *** Error lines and the error flag go together *)

Lemma tracked_check_lang (doc : document) : tracked (check_lang doc).
Proof.
  unfold check_lang. tracked_step; [tracked_step | ].
  destruct (html_lang doc) as [lang | ]; repeat tracked_step.
Qed.

Lemma tracked_walk_headings (hs : list nat) :
  forall idx previousLevel, tracked (walk_headings idx previousLevel hs).
Proof.
  induction hs as [ | level hs IH]; intros idx previousLevel;
    cbn [walk_headings].
  - tracked_step.
  - tracked_step; [repeat tracked_step | ].
    tracked_step; [repeat tracked_step | apply IH].
Qed.

Lemma tracked_check_headings (doc : document) : tracked (check_headings doc).
Proof.
  unfold check_headings.
  tracked_step; [tracked_step | ].
  tracked_step; [apply tracked_walk_headings | ].
  repeat tracked_step.
Qed.

Lemma tracked_check_images (doc : document) : tracked (check_images doc).
Proof.
  unfold check_images. tracked_step; [tracked_step | ].
  apply (tracked_counted alt_missing
           (fun i => ("Image missing alt attribute: "
                      ++ or_else (img_src i) "unknown")%string));
    repeat tracked_step.
Qed.

Lemma tracked_check_inputs (doc : document) : tracked (check_inputs doc).
Proof.
  unfold check_inputs. tracked_step; [tracked_step | ].
  apply (tracked_counted unlabeled
           (fun c => ("Input missing label or aria-label: "
                      ++ substring 0 50 (control_outerHTML c) ++ "...")%string));
    tracked_step.
Qed.

Lemma tracked_check_links (doc : document) : tracked (check_links doc).
Proof.
  unfold check_links. tracked_step; [tracked_step | ].
  tracked_step.
  - apply tracked_each. intros l. unfold check_link. repeat tracked_step.
  - cbv zeta. repeat tracked_step.
Qed.

Lemma tracked_check_buttons (doc : document) : tracked (check_buttons doc).
Proof.
  unfold check_buttons. tracked_step; [tracked_step | ].
  apply (tracked_counted unnamed
           (fun b => ("Button has no accessible name: "
                      ++ substring 0 50 (button_outerHTML b) ++ "...")%string));
    tracked_step.
Qed.

Lemma tracked_check_landmarks (doc : document) : tracked (check_landmarks doc).
Proof. unfold check_landmarks, check_landmark. repeat tracked_step. Qed.

Lemma tracked_testHTMLForAccessibility (f : file) (path name : string) :
  tracked (testHTMLForAccessibility f path name).
Proof.
  unfold testHTMLForAccessibility. tracked_step; [tracked_step | ].
  destruct f as [ | message | doc]; [tracked_step | tracked_step | ].
  tracked_step; [apply tracked_check_lang | ].
  tracked_step; [apply tracked_check_headings | ].
  tracked_step; [apply tracked_check_images | ].
  tracked_step; [apply tracked_check_inputs | ].
  tracked_step; [apply tracked_check_links | ].
  tracked_step; [apply tracked_check_buttons | ].
  tracked_step; [apply tracked_check_landmarks | tracked_step].
Qed.

Lemma tracked_test_page (f : file) (path name : string) :
  tracked (test_page f path name).
Proof.
  unfold test_page.
  destruct f; [tracked_step | | ]; apply tracked_testHTMLForAccessibility.
Qed.

Lemma tracked_checks (s : site) : tracked (checks s).
Proof.
  unfold checks. tracked_step; [tracked_step | ].
  tracked_step; [apply tracked_testHTMLForAccessibility | ].
  tracked_step; [apply tracked_testHTMLForAccessibility | ].
  tracked_step; [apply tracked_testHTMLForAccessibility | ].
  tracked_step; apply tracked_test_page.
Qed.

(** X11. The accessibility script ends with a non-zero code exactly when one of
    its checks printed an error line. *)
Lemma accessibility_exit (s : site) :
  exit_of s <> 0 <-> failed (printed (checks s start)) = true.
Proof.
  unfold exit_of, summary.
  rewrite (tracked_checks s start) by reflexivity.
  destruct (hasErrors (checks s start)); [ | destruct (hasWarnings _)];
    simpl; split; intros; congruence.
Qed.

(** *** The image check *)

Lemma flags_a11y_images (doc : document) :
  flags (check_images doc) (existsb alt_missing (images doc)) false.
Proof.
  unfold check_images.
  eapply flags_eq; [ | | eapply flags_seq; [apply flags_say | ] ].
  3: apply (flags_counted alt_missing
              (fun i => ("Image missing alt attribute: "
                         ++ or_else (img_src i) "unknown")%string)).
  3: destruct (0 <? emptyAltCount (images doc))%nat; flags_closed.
  3: apply flags_say.
  all: reflexivity.
Qed.

(** X12. An image with no [alt] attribute makes the check print an error line
    and raise the error flag. *)
Lemma image_without_alt_fails (doc : document) (i : img) (r : run) :
  In i (images doc) -> img_alt i = None ->
  hasErrors (check_images doc r) = true
  /\ failed (printed (check_images doc r)) = true.
Proof.
  intros I N.
  assert (B : existsb alt_missing (images doc) = true).
  { apply existsb_exists. exists i. split; trivial.
    unfold alt_missing. now rewrite N. }
  destruct (flags_a11y_images doc r) as [He _].
  rewrite He, B, orb_true_r. split; trivial.
  unfold check_images, seq.
  destruct (each_say alt_missing Error
              (fun i => ("Image missing alt attribute: "
                         ++ or_else (img_src i) "unknown")%string)
              (images doc)
              (say Log "Checking images for alt text..." r))
    as (_ & _ & Hf & _).
  cbv zeta in Hf. rewrite B in Hf. cbn [level_eqb andb] in Hf.
  rewrite orb_true_r in Hf.
  unfold missingAltCount. rewrite count_zero, B. cbn [negb andb].
  assert (L : (List.length (images doc) =? 0)%nat = false).
  { destruct (images doc); [contradiction | reflexivity]. }
  rewrite L. cbn [printed say flag_error]. rewrite failed_app.
  apply orb_true_iff. left. exact Hf.
Qed.

(** X13. When every image has an [alt] attribute that is not the empty string
    (white space counts), the check prints neither an error nor a warning
    and leaves the flags alone. *)
Lemma images_with_alt_pass (doc : document) (r : run) :
  Forall (fun i => truthy (img_alt i) = true) (images doc) ->
  hasErrors (check_images doc r) = hasErrors r
  /\ hasWarnings (check_images doc r) = hasWarnings r
  /\ failed (printed (check_images doc r)) = failed (printed r)
  /\ warned (printed (check_images doc r)) = warned (printed r).
Proof.
  intros F.
  assert (B : existsb alt_missing (images doc) = false).
  { apply not_true_is_false. intros H. apply existsb_exists in H.
    destruct H as (i & I & M). rewrite Forall_forall in F.
    unfold alt_missing in M. rewrite (F i I) in M. discriminate. }
  destruct (flags_a11y_images doc r) as [He Hw].
  rewrite He, Hw, B, !orb_false_r. repeat split.
  - unfold check_images, seq.
    destruct (each_say alt_missing Error
                (fun i => ("Image missing alt attribute: "
                           ++ or_else (img_src i) "unknown")%string)
                (images doc)
                (say Log "Checking images for alt text..." r))
      as (_ & _ & Hf & _).
    cbv zeta in Hf. rewrite B, andb_false_r, orb_false_r in Hf.
    cbn [printed say] in Hf. rewrite failed_app in Hf.
    cbn in Hf. rewrite orb_false_r in Hf.
    unfold missingAltCount. rewrite count_zero, B. cbn [negb andb].
    destruct (0 <? List.length (images doc))%nat eqn:P.
    + destruct (0 <? emptyAltCount (images doc))%nat;
        cbn [printed say skip]; rewrite ?failed_app; cbn;
        rewrite ?orb_false_r; exact Hf.
    + destruct (List.length (images doc) =? 0)%nat eqn:L.
      * cbn [printed say]. rewrite failed_app. cbn.
        rewrite orb_false_r. exact Hf.
      * exfalso. clear - P L. destruct (images doc); simpl in *; discriminate.
  - unfold check_images, seq.
    destruct (each_say alt_missing Error
                (fun i => ("Image missing alt attribute: "
                           ++ or_else (img_src i) "unknown")%string)
                (images doc)
                (say Log "Checking images for alt text..." r))
      as (_ & _ & _ & Hn).
    cbv zeta in Hn. cbn [level_eqb andb] in Hn. rewrite orb_false_r in Hn.
    cbn [printed say] in Hn. rewrite warned_app in Hn.
    cbn in Hn. rewrite orb_false_r in Hn.
    unfold missingAltCount. rewrite count_zero, B. cbn [negb andb].
    destruct (0 <? List.length (images doc))%nat eqn:P.
    + destruct (0 <? emptyAltCount (images doc))%nat;
        cbn [printed say skip]; rewrite ?warned_app; cbn;
        rewrite ?orb_false_r; exact Hn.
    + destruct (List.length (images doc) =? 0)%nat eqn:L.
      * cbn [printed say]. rewrite warned_app. cbn.
        rewrite orb_false_r. exact Hn.
      * exfalso. clear - P L. destruct (images doc); simpl in *; discriminate.
Qed.

(** C9, at the failing input.  An image with [alt] present and empty is
    counted as an image without [alt]: the check prints two error lines and
    raises the error flag. *)
Lemma empty_alt_reported_missing :
  printed (check_images page_with_empty_alt start)
  = [ (Log, "Checking images for alt text...");
      (Error, "Image missing alt attribute: assets/images/divider.png");
      (Error, "1 out of 1 images missing alt attributes") ]
  /\ hasErrors (check_images page_with_empty_alt start) = true
  /\ missingAltCount (images page_with_empty_alt) = 1
  /\ emptyAltCount (images page_with_empty_alt) = 0.
Proof. vm_compute. auto. Qed.

Example blank_alt_accepted :
  printed (check_images page_with_blank_alt start)
  = [ (Log, "Checking images for alt text...");
      (Log, "All 1 images have alt attributes");
      (Log, "1 images have empty alt (decorative)") ]
  /\ hasErrors (check_images page_with_blank_alt start) = false.
Proof. vm_compute. auto. Qed.

End Accessibility.

(** ** The SEO compliance script *)

Module Seo.

Import Js Script.
Local Open Scope string_scope.
Local Open Scope list_scope.

Definition show (n : nat) : string := NilEmpty.string_of_uint (Nat.to_uint n).

Record img := {
  img_src : option string;
  img_alt : option string
}.

(** The JSON-LD block of a page: none, one that [JSON.parse] accepts, or one
    it refuses with a message. *)
Inductive json_ld :=
| NoBlock
| ValidBlock
| InvalidBlock (message : string).

(** What the script reads of the parsed document: for an element only
    looked up, whether it is there. *)
Record document := {
  (** [meta[name=description]], with its [content] attribute *)
  metaDesc : option (option string);
  viewport : bool;
  ogTitle : bool;
  ogDesc : bool;
  ogUrl : bool;
  ogImage : bool;
  twitterCard : bool;
  twitterTitle : bool;
  twitterDesc : bool;
  canonical : bool;
  themeColor : bool;
  (** the text of [title] *)
  title : option string;
  manifest : bool;
  favicon : bool;
  appleTouchIcon : bool;
  structuredData : json_ld;
  images : list img;
  (** the [lang] attribute of [html] *)
  html_lang : option (option string)
}.

Inductive file :=
| Missing
| Unparsable (message : string)
| Parsed (doc : document).

(** Test 1. *)
Definition check_description (doc : document) : step :=
  say Log "Checking meta tags..." ;;
  match metaDesc doc with
  | Some content =>
      if truthy content then say Log "Meta description found"
      else say Warn "Meta description missing or empty" ;; flag_warning
  | None => say Warn "Meta description missing or empty" ;; flag_warning
  end.

(** Test 2. *)
Definition check_viewport (doc : document) : step :=
  if viewport doc then say Log "Viewport meta tag found"
  else say Error "Viewport meta tag missing" ;; flag_error.

(** Test 3. *)
Definition check_open_graph (doc : document) : step :=
  (if ogTitle doc && ogDesc doc && ogUrl doc then
     say Log "Open Graph tags found (title, description, url)"
   else say Error "Missing some Open Graph tags" ;; flag_error) ;;
  (if ogImage doc then say Log "Open Graph image found"
   else say Warn "Open Graph image missing" ;; flag_warning).

(** Test 4. *)
Definition check_twitter (doc : document) : step :=
  if twitterCard doc && twitterTitle doc && twitterDesc doc then
    say Log "Twitter Card tags found"
  else say Error "Missing some Twitter Card tags" ;; flag_error.

(** Test 5. *)
Definition check_canonical (doc : document) : step :=
  if canonical doc then say Log "Canonical URL found"
  else say Error "Canonical URL missing" ;; flag_error.

(** Test 6. *)
Definition check_theme_color (doc : document) : step :=
  if themeColor doc then say Log "Theme color meta tag found"
  else say Warn "Theme color meta tag missing" ;; flag_warning.

(** Test 7. *)
Definition title_ok (doc : document) : bool :=
  match title doc with
  | Some t => negb (String.eqb (trim t) "")
  | None => false
  end.

Definition check_title (doc : document) : step :=
  if title_ok doc then say Log "Title tag found and not empty"
  else say Error "Title tag missing or empty" ;; flag_error.

(** Test 8. *)
Definition check_manifest_link (doc : document) : step :=
  if manifest doc then say Log "Web manifest link found"
  else say Warn "Web manifest link missing" ;; flag_warning.

(** Test 9. *)
Definition check_favicon (doc : document) : step :=
  if favicon doc then say Log "Favicon found"
  else say Warn "Favicon missing" ;; flag_warning.

(** Test 10. *)
Definition check_apple_touch_icon (doc : document) : step :=
  if appleTouchIcon doc then say Log "Apple touch icon found"
  else say Warn "Apple touch icon missing" ;; flag_warning.

(** Test 11. *)
Definition check_structured_data (doc : document) : step :=
  match structuredData doc with
  | ValidBlock =>
      say Log "Structured data (JSON-LD) found" ;;
      say Log "Structured data is valid JSON"
  | InvalidBlock message =>
      say Log "Structured data (JSON-LD) found" ;;
      say Error ("Structured data has invalid JSON syntax: " ++ message) ;;
      flag_error
  | NoBlock =>
      say Warn "Structured data (JSON-LD) missing" ;; flag_warning
  end.

(** Test 12. *)
Definition alt_missing (i : img) : bool :=
  negb (truthy (img_alt i))
  || match img_alt i with
     | Some alt => String.eqb (trim alt) ""
     | None => false
     end.

Definition check_image (i : img) : step :=
  let src := or_else (img_src i) "unknown" in
  if alt_missing i then say Error ("Image missing alt text: " ++ src)
  else skip.

Definition missingAltCount (l : list img) : nat :=
  List.length (filter alt_missing l).

Definition check_images (doc : document) : step :=
  let images := images doc in
  say Log "Checking images for alt text..." ;;
  each check_image images ;;
  if (missingAltCount images =? 0)%nat && (0 <? List.length images)%nat then
    say Log ("All " ++ show (List.length images) ++ " images have alt text")
  else if (List.length images =? 0)%nat then
    say Log "No images found in this file"
  else
    say Error (show (missingAltCount images) ++ " out of "
               ++ show (List.length images) ++ " images missing alt text") ;;
    flag_error.

(** Test 13, for complete documents only. *)
Definition lang_ok (doc : document) : bool :=
  match html_lang doc with
  | Some lang => truthy lang
  | None => false
  end.

Definition check_lang (doc : document) (isCompleteDoc : bool) : step :=
  if isCompleteDoc then
    say Log "Checking HTML lang attribute..." ;;
    if lang_ok doc then say Log "HTML lang attribute found"
    else say Error "HTML lang attribute missing" ;; flag_error
  else skip.

Definition testHTMLForSEO (f : file) (htmlPath pageName : string)
    (isCompleteDoc : bool) : step :=
  say Log ("=== Testing " ++ pageName ++ " for SEO compliance ===") ;;
  match f with
  | Missing => say Error ("File not found: " ++ htmlPath) ;; flag_error
  | Unparsable message =>
      say Error ("Error parsing " ++ htmlPath ++ ": " ++ message) ;;
      flag_error
  | Parsed doc =>
      check_description doc ;;
      check_viewport doc ;;
      check_open_graph doc ;;
      check_twitter doc ;;
      check_canonical doc ;;
      check_theme_color doc ;;
      check_title doc ;;
      check_manifest_link doc ;;
      check_favicon doc ;;
      check_apple_touch_icon doc ;;
      check_structured_data doc ;;
      check_images doc ;;
      check_lang doc isCompleteDoc ;;
      say Log (pageName ++ " SEO tests completed")
  end.

(** [manifest.json]: for each field read, whether its value is true in
    JavaScript's sense; for [icons], its length when it has one. *)
Record manifest_json := {
  m_name : bool;
  m_short_name : bool;
  m_start_url : bool;
  m_display : bool;
  m_icons : option nat;
  m_theme_color : bool
}.

Inductive manifest_file :=
| NoManifest
| BadManifest (message : string)
| Manifest (m : manifest_json).

Definition testFileExists (present : bool) (filePath description : string)
  : step :=
  say Log ("Testing: " ++ description) ;;
  if present then say Log (description ++ " exists")
  else say Error (description ++ " not found at " ++ filePath) ;; flag_error.

Definition check_field (present : bool) (field : string) : step :=
  if present then say Log ("Manifest has " ++ field)
  else say Error ("Manifest missing " ++ field) ;; flag_error.

Definition testManifest (f : manifest_file) : step :=
  say Log "=== Testing manifest.json ===" ;;
  match f with
  | NoManifest => say Error "manifest.json not found" ;; flag_error
  | BadManifest message =>
      say Error ("Error parsing manifest.json: " ++ message) ;; flag_error
  | Manifest m =>
      check_field (m_name m) "name" ;;
      check_field (m_short_name m) "short_name" ;;
      check_field (m_start_url m) "start_url" ;;
      check_field (m_display m) "display" ;;
      (if match m_icons m with Some n => (0 <? n)%nat | None => false end
       then say Log "Manifest has icons"
       else say Warn "Manifest missing icons" ;; flag_warning) ;;
      (if m_theme_color m then say Log "Manifest has theme_color"
       else say Warn "Manifest missing theme_color" ;; flag_warning) ;;
      (if m_name m && m_short_name m && m_start_url m && m_display m
       then say Log "manifest.json is valid"
       else skip)
  end.

(** [robots.txt], by its content when it exists. *)
Definition testRobotsTxt (f : option string) : step :=
  say Log "=== Testing robots.txt ===" ;;
  match f with
  | None => say Error "robots.txt not found" ;; flag_error
  | Some content =>
      (if includes "Sitemap:" content then
         say Log "robots.txt has Sitemap directive"
       else say Error "robots.txt missing Sitemap directive" ;; flag_error) ;;
      (if includes "User-agent:" content then
         say Log "robots.txt has User-agent directive"
       else say Log "robots.txt has no User-agent directive (defaults to allowing all crawlers)") ;;
      say Log "robots.txt tests completed"
  end.

(** A page of [pagesToTest], by the [img] tags its text holds (what
    [content.match] returns), when the file exists. *)
Definition tag_without_alt (tag : string) : bool := negb (includes "alt=" tag).

Definition check_tag (name tag : string) : step :=
  if tag_without_alt tag then
    say Error (name ++ ": Image tag missing alt attribute")
  else skip.

Definition test_page (f : option (list string)) (name : string) : step :=
  match f with
  | Some imgTags =>
      let missingAlt := List.length (filter tag_without_alt imgTags) in
      each (check_tag name) imgTags ;;
      if (0 <? List.length imgTags)%nat && (missingAlt =? 0)%nat then
        say Log (name ++ ": All " ++ show (List.length imgTags)
                 ++ " images have alt attributes")
      else if (List.length imgTags =? 0)%nat then
        say Log (name ++ ": No images found")
      else skip
  | None => skip
  end.

(** The files the script looks at. *)
Record site := {
  robots_txt : option string;
  manifest_file_json : manifest_file;
  head_html : file;
  books_page : option (list string);
  about_page : option (list string)
}.

Definition is_some (A : Type) (o : option A) : bool :=
  match o with Some _ => true | None => false end.

Definition manifest_present (f : manifest_file) : bool :=
  match f with NoManifest => false | _ => true end.

(** Everything the script does before its final summary. *)
Definition checks (s : site) : step :=
  say Log "Starting SEO and web compliance tests..." ;;
  say Log "=== Testing for required files ===" ;;
  testFileExists (is_some (robots_txt s)) "robots.txt" "robots.txt" ;;
  testFileExists (manifest_present (manifest_file_json s))
    "manifest.json" "manifest.json" ;;
  say Log "" ;;
  testHTMLForSEO (head_html s) "_includes/head.html" "head.html template"
    false ;;
  say Log "=== Testing individual pages ===" ;;
  test_page (books_page s) "Books page" ;;
  test_page (about_page s) "About page" ;;
  testManifest (manifest_file_json s) ;;
  testRobotsTxt (robots_txt s).

Definition summary (r : run) : console * nat :=
  if hasErrors r then
    ([(Log, "=== Test Summary ===");
      (Error, "Some SEO compliance tests FAILED. Please fix the errors above.")],
     1)
  else if hasWarnings r then
    ([(Log, "=== Test Summary ===");
      (Warn, "All critical tests passed, but there are some warnings to address.")],
     0)
  else
    ([(Log, "=== Test Summary ===");
      (Log, "All SEO and web compliance tests PASSED!")],
     0).

Definition exit_of (s : site) : nat := snd (summary (checks s start)).

(** *** Hard and soft failures of a document *)

Definition description_ok (doc : document) : bool :=
  match metaDesc doc with
  | Some content => truthy content
  | None => false
  end.

Definition json_bad (doc : document) : bool :=
  match structuredData doc with
  | InvalidBlock _ => true
  | _ => false
  end.

Definition json_none (doc : document) : bool :=
  match structuredData doc with
  | NoBlock => true
  | _ => false
  end.

(** A check that raises the error flag fails. *)
Definition hard_failure (doc : document) (isCompleteDoc : bool) : bool :=
  negb (viewport doc)
  || (negb (ogTitle doc && ogDesc doc && ogUrl doc)
  || (negb (twitterCard doc && twitterTitle doc && twitterDesc doc)
  || (negb (canonical doc)
  || (negb (title_ok doc)
  || (json_bad doc
  || (existsb alt_missing (images doc)
  || (isCompleteDoc && negb (lang_ok doc)))))))).

(** A check that raises the warning flag fails. *)
Definition soft_missing (doc : document) : bool :=
  negb (description_ok doc)
  || (negb (ogImage doc)
  || (negb (themeColor doc)
  || (negb (manifest doc)
  || (negb (favicon doc)
  || (negb (appleTouchIcon doc)
  || json_none doc))))).

(** *** Absent soft features *)

(** Which of the seven soft features are taken out of a document. *)
Record absences := {
  no_description : bool;
  no_og_image : bool;
  no_theme_color : bool;
  no_manifest_link : bool;
  no_favicon : bool;
  no_apple_touch_icon : bool;
  no_structured_data : bool
}.

Definition any_absent (m : absences) : bool :=
  no_description m || no_og_image m || no_theme_color m
  || no_manifest_link m || no_favicon m || no_apple_touch_icon m
  || no_structured_data m.

(** The document with the chosen features missing, and nothing else
    changed. *)
Definition without (m : absences) (doc : document) : document :=
  {| metaDesc := if no_description m then None else metaDesc doc;
     viewport := viewport doc;
     ogTitle := ogTitle doc;
     ogDesc := ogDesc doc;
     ogUrl := ogUrl doc;
     ogImage := if no_og_image m then false else ogImage doc;
     twitterCard := twitterCard doc;
     twitterTitle := twitterTitle doc;
     twitterDesc := twitterDesc doc;
     canonical := canonical doc;
     themeColor := if no_theme_color m then false else themeColor doc;
     title := title doc;
     manifest := if no_manifest_link m then false else manifest doc;
     favicon := if no_favicon m then false else favicon doc;
     appleTouchIcon :=
       if no_apple_touch_icon m then false else appleTouchIcon doc;
     structuredData :=
       if no_structured_data m then NoBlock else structuredData doc;
     images := images doc;
     html_lang := html_lang doc |}.

(** The site with another [_includes/head.html]. *)
Definition with_head (s : site) (f : file) : site :=
  {| robots_txt := robots_txt s;
     manifest_file_json := manifest_file_json s;
     head_html := f;
     books_page := books_page s;
     about_page := about_page s |}.

Definition before_head (s : site) : step :=
  say Log "Starting SEO and web compliance tests..." ;;
  say Log "=== Testing for required files ===" ;;
  testFileExists (is_some (robots_txt s)) "robots.txt" "robots.txt" ;;
  testFileExists (manifest_present (manifest_file_json s))
    "manifest.json" "manifest.json" ;;
  say Log "".

Definition after_head (s : site) : step :=
  say Log "=== Testing individual pages ===" ;;
  test_page (books_page s) "Books page" ;;
  test_page (about_page s) "About page" ;;
  testManifest (manifest_file_json s) ;;
  testRobotsTxt (robots_txt s).

(** *** Sample sites *)

Definition full_head : document :=
  {| metaDesc := Some (Some "Hal Y. Zhang writes science, fiction, and science fiction.");
     viewport := true;
     ogTitle := true; ogDesc := true; ogUrl := true; ogImage := true;
     twitterCard := true; twitterTitle := true; twitterDesc := true;
     canonical := true;
     themeColor := true;
     title := Some "Hal Y. Zhang";
     manifest := true;
     favicon := true;
     appleTouchIcon := true;
     structuredData := ValidBlock;
     images := [];
     html_lang := None |}.

Definition all_absent : absences :=
  {| no_description := true; no_og_image := true; no_theme_color := true;
     no_manifest_link := true; no_favicon := true;
     no_apple_touch_icon := true; no_structured_data := true |}.

Definition full_site : site :=
  {| robots_txt := Some "User-agent: * Sitemap: https://halyzhang.com/sitemap.xml";
     manifest_file_json :=
       Manifest {| m_name := true; m_short_name := true; m_start_url := true;
                   m_display := true; m_icons := Some 2;
                   m_theme_color := true |};
     head_html := Parsed full_head;
     books_page := Some ["<img src='assets/books/amnesia.jpg' alt='AMNESIA'>"];
     about_page := Some ["<img src='assets/images/about/me.jpg' alt='Hal'>"] |}.

(** The about page with an image tag that has no [alt]. *)
Definition site_page_image_without_alt : site :=
  {| robots_txt := robots_txt full_site;
     manifest_file_json := manifest_file_json full_site;
     head_html := head_html full_site;
     books_page := books_page full_site;
     about_page := Some ["<img src='assets/images/about/me.jpg'>"] |}.

(** *** What the HTML check does to the flags *)

Lemma flags_check_description (doc : document) :
  flags (check_description doc) false (negb (description_ok doc)).
Proof.
  unfold check_description, description_ok.
  destruct (metaDesc doc) as [content | ]; [destruct (truthy content) | ];
    flags_closed.
Qed.

Lemma flags_check_viewport (doc : document) :
  flags (check_viewport doc) (negb (viewport doc)) false.
Proof. unfold check_viewport. destruct (viewport doc); flags_closed. Qed.

Lemma flags_check_open_graph (doc : document) :
  flags (check_open_graph doc)
        (negb (ogTitle doc && ogDesc doc && ogUrl doc)) (negb (ogImage doc)).
Proof.
  unfold check_open_graph.
  destruct (ogTitle doc && ogDesc doc && ogUrl doc), (ogImage doc);
    flags_closed.
Qed.

Lemma flags_check_twitter (doc : document) :
  flags (check_twitter doc)
        (negb (twitterCard doc && twitterTitle doc && twitterDesc doc)) false.
Proof.
  unfold check_twitter.
  destruct (twitterCard doc && twitterTitle doc && twitterDesc doc);
    flags_closed.
Qed.

Lemma flags_check_canonical (doc : document) :
  flags (check_canonical doc) (negb (canonical doc)) false.
Proof. unfold check_canonical. destruct (canonical doc); flags_closed. Qed.

Lemma flags_check_theme_color (doc : document) :
  flags (check_theme_color doc) false (negb (themeColor doc)).
Proof. unfold check_theme_color. destruct (themeColor doc); flags_closed. Qed.

Lemma flags_check_title (doc : document) :
  flags (check_title doc) (negb (title_ok doc)) false.
Proof. unfold check_title. destruct (title_ok doc); flags_closed. Qed.

Lemma flags_check_manifest_link (doc : document) :
  flags (check_manifest_link doc) false (negb (manifest doc)).
Proof. unfold check_manifest_link. destruct (manifest doc); flags_closed. Qed.

Lemma flags_check_favicon (doc : document) :
  flags (check_favicon doc) false (negb (favicon doc)).
Proof. unfold check_favicon. destruct (favicon doc); flags_closed. Qed.

Lemma flags_check_apple_touch_icon (doc : document) :
  flags (check_apple_touch_icon doc) false (negb (appleTouchIcon doc)).
Proof.
  unfold check_apple_touch_icon. destruct (appleTouchIcon doc); flags_closed.
Qed.

Lemma flags_check_structured_data (doc : document) :
  flags (check_structured_data doc) (json_bad doc) (json_none doc).
Proof.
  unfold check_structured_data, json_bad, json_none.
  destruct (structuredData doc); flags_closed.
Qed.

Lemma flags_check_images (doc : document) :
  flags (check_images doc) (existsb alt_missing (images doc)) false.
Proof.
  unfold check_images.
  eapply flags_eq; [ | | eapply flags_seq; [apply flags_say | ] ].
  3: apply (flags_counted alt_missing
              (fun i => ("Image missing alt text: "
                         ++ or_else (img_src i) "unknown")%string));
     apply flags_say.
  all: reflexivity.
Qed.

Lemma flags_check_lang (doc : document) (isCompleteDoc : bool) :
  flags (check_lang doc isCompleteDoc)
        (isCompleteDoc && negb (lang_ok doc)) false.
Proof.
  unfold check_lang. destruct isCompleteDoc, (lang_ok doc); flags_closed.
Qed.

Ltac seo_step :=
  lazymatch goal with
  | |- flags (_ ;; _) _ _ => eapply flags_seq
  | |- flags (say _ _) _ _ => apply flags_say
  | |- flags (check_description _) _ _ => apply flags_check_description
  | |- flags (check_viewport _) _ _ => apply flags_check_viewport
  | |- flags (check_open_graph _) _ _ => apply flags_check_open_graph
  | |- flags (check_twitter _) _ _ => apply flags_check_twitter
  | |- flags (check_canonical _) _ _ => apply flags_check_canonical
  | |- flags (check_theme_color _) _ _ => apply flags_check_theme_color
  | |- flags (check_title _) _ _ => apply flags_check_title
  | |- flags (check_manifest_link _) _ _ => apply flags_check_manifest_link
  | |- flags (check_favicon _) _ _ => apply flags_check_favicon
  | |- flags (check_apple_touch_icon _) _ _ =>
      apply flags_check_apple_touch_icon
  | |- flags (check_structured_data _) _ _ =>
      apply flags_check_structured_data
  | |- flags (check_images _) _ _ => apply flags_check_images
  | |- flags (check_lang _ _) _ _ => apply flags_check_lang
  end.

(** On a parsed file the HTML check raises the error flag exactly when a
    hard check fails, and the warning flag exactly when a soft one does. *)
Lemma flags_testHTMLForSEO (doc : document) (path name : string)
    (isCompleteDoc : bool) :
  flags (testHTMLForSEO (Parsed doc) path name isCompleteDoc)
        (hard_failure doc isCompleteDoc) (soft_missing doc).
Proof.
  unfold testHTMLForSEO.
  eapply flags_eq; [ | | repeat seo_step];
    cbn [orb]; rewrite orb_false_r; reflexivity.
Qed.

Lemma checks_split (s : site) (r : run) :
  checks s r
  = after_head s
      (testHTMLForSEO (head_html s) "_includes/head.html"
         "head.html template" false (before_head s r)).
Proof. reflexivity. Qed.

Lemma steady_test_page (f : option (list string)) (name : string) :
  steady (test_page f name).
Proof.
  unfold test_page. destruct f as [imgTags | ]; [ | steady_steps].
  apply steady_seq; [ | steady_steps].
  exists false, false.
  apply (flags_each_say tag_without_alt Error
           (fun _ => (name ++ ": Image tag missing alt attribute")%string)).
Qed.

Lemma steady_testManifest (f : manifest_file) : steady (testManifest f).
Proof.
  unfold testManifest, check_field. destruct f; steady_steps.
Qed.

Lemma steady_testRobotsTxt (f : option string) : steady (testRobotsTxt f).
Proof. unfold testRobotsTxt. destruct f; steady_steps. Qed.

Lemma steady_after_head (s : site) : steady (after_head s).
Proof.
  unfold after_head.
  apply steady_seq; [steady_steps | ].
  apply steady_seq; [apply steady_test_page | ].
  apply steady_seq; [apply steady_test_page | ].
  apply steady_seq; [apply steady_testManifest | apply steady_testRobotsTxt].
Qed.

(** The error flag at the end of the script: raised before the head is
    looked at, by the check of the head, or after it. *)
Lemma checks_errors (s : site) :
  exists e1 e2, forall f eh wh,
    flags (testHTMLForSEO f "_includes/head.html" "head.html template" false)
          eh wh ->
    hasErrors (checks (with_head s f) start) = e1 || eh || e2.
Proof.
  destruct (steady_after_head s) as (e2 & w2 & H2).
  exists (hasErrors (before_head s start)), e2. intros f eh wh Hf.
  rewrite checks_split.
  change (after_head (with_head s f)) with (after_head s).
  change (before_head (with_head s f)) with (before_head s).
  change (head_html (with_head s f)) with f.
  destruct (H2 (testHTMLForSEO f "_includes/head.html" "head.html template"
                  false (before_head s start))) as [-> _].
  now destruct (Hf (before_head s start)) as [-> _].
Qed.

Lemma hard_failure_without (m : absences) (doc : document) (c : bool) :
  hard_failure (without m doc) c = true -> hard_failure doc c = true.
Proof.
  unfold hard_failure, json_bad, title_ok, lang_ok. cbn.
  destruct (no_structured_data m), (structuredData doc); cbn;
    try (intros H; exact H);
    destruct (viewport doc), (ogTitle doc && ogDesc doc && ogUrl doc),
      (twitterCard doc && twitterTitle doc && twitterDesc doc),
      (canonical doc); cbn; trivial;
    destruct (match title doc with
              | Some t => negb (String.eqb (trim t) "")
              | None => false
              end); cbn; trivial.
Qed.

Lemma soft_missing_without (m : absences) (doc : document) :
  any_absent m = true -> soft_missing (without m doc) = true.
Proof.
  unfold any_absent, soft_missing, description_ok, json_none.
  destruct m as [a b c d e f g]. cbn.
  destruct a, b, c, d, e, f, g; cbn; try discriminate; intros _;
    rewrite ?orb_true_r; reflexivity.
Qed.

(** C10. A missing meta description, Open Graph image, theme colour, web
    manifest link, favicon, apple-touch-icon or JSON-LD block never raises
    the error flag: when the check of a document with some of them taken out
    ends with the error flag raised, so does the check of the document
    itself.  Taking any of them out raises the warning flag.  And the script
    exits with a non-zero code on the site whose head lacks them only if it
    does so on the site whose head has them. *)
Theorem seo_absences_only_warn (m : absences) (doc : document)
    (path name : string) (isCompleteDoc : bool) (r : run) (s : site) :
  (hasErrors (testHTMLForSEO (Parsed (without m doc)) path name
                isCompleteDoc r) = true ->
   hasErrors (testHTMLForSEO (Parsed doc) path name isCompleteDoc r) = true)
  /\ (any_absent m = true ->
      hasWarnings (testHTMLForSEO (Parsed (without m doc)) path name
                     isCompleteDoc r) = true)
  /\ (exit_of (with_head s (Parsed (without m doc))) <> 0 ->
      exit_of (with_head s (Parsed doc)) <> 0).
Proof.
  repeat split.
  - destruct (flags_testHTMLForSEO (without m doc) path name isCompleteDoc r)
      as [-> _].
    destruct (flags_testHTMLForSEO doc path name isCompleteDoc r) as [-> _].
    intros H. apply orb_true_iff in H. apply orb_true_iff.
    destruct H as [H | H]; [now left | right].
    now apply hard_failure_without with (m := m).
  - intros A.
    destruct (flags_testHTMLForSEO (without m doc) path name isCompleteDoc r)
      as [_ ->].
    rewrite (soft_missing_without m doc A). apply orb_true_r.
  - destruct (checks_errors s) as (e1 & e2 & H).
    unfold exit_of, summary.
    rewrite (H _ _ _ (flags_testHTMLForSEO (without m doc) _ _ false)).
    rewrite (H _ _ _ (flags_testHTMLForSEO doc _ _ false)).
    pose proof (hard_failure_without m doc false) as L.
    destruct e1, e2, (hard_failure (without m doc) false),
      (hard_failure doc false); cbn; trivial;
      try (specialize (L eq_refl); discriminate);
      intros X; exfalso; apply X; now destruct (hasWarnings _).
Qed.

Example seo_bare_head_exits_zero :
  hasErrors (checks (with_head full_site (Parsed (without all_absent full_head)))
               start) = false
  /\ hasWarnings (checks (with_head full_site
                            (Parsed (without all_absent full_head))) start)
     = true
  /\ exit_of (with_head full_site (Parsed (without all_absent full_head))) = 0.
Proof. vm_compute. auto. Qed.

(** C7, at the failing input.  The page check prints an error line for the
    image and leaves the error flag alone: the script reports that all tests
    passed and exits with code 0. *)
Lemma seo_page_image_error_exits_zero :
  In (Error, "About page: Image tag missing alt attribute")
     (printed (checks site_page_image_without_alt start))
  /\ failed (printed (checks site_page_image_without_alt start)) = true
  /\ hasErrors (checks site_page_image_without_alt start) = false
  /\ summary (checks site_page_image_without_alt start)
     = ([(Log, "=== Test Summary ===");
         (Log, "All SEO and web compliance tests PASSED!")], 0)
  /\ exit_of site_page_image_without_alt = 0.
Proof.
  split; [ | vm_compute; auto].
  vm_compute. repeat first [left; reflexivity | right].
Qed.

End Seo.

(** ** tests/generators.js *)

Module Generators.

Import Js Script.
Local Open Scope string_scope.
Local Open Scope list_scope.

Definition show (n : nat) : string := NilEmpty.string_of_uint (Nat.to_uint n).

Record button := {
  id : string;
  action : string
}.

Record expectations := {
  elements : list string;
  functions : list string;
  buttons : list button
}.

(** The first [script] element of a page, as far as the script reads it:
    its counts of braces and parentheses, and whether it holds both marks of
    an immediately invoked function. *)
Record script_text := {
  openBraces : nat;
  closeBraces : nat;
  openParens : nat;
  closeParens : nat;
  iife : bool
}.

(** What the tests find in the text of a generator page: whether it holds
    the [id] of an element, a definition of a function, a click listener on
    a button and a Bootstrap class on it, and its first script. *)
Record page := {
  has_element : string -> bool;
  has_function : string -> bool;
  has_listener : string -> bool;
  scriptMatch : option script_text;
  has_button_class : string -> bool
}.

Definition check_element (p : page) (elementId : string) : step :=
  if has_element p elementId then say Log ("Found element: #" ++ elementId)
  else say Error ("Missing element: #" ++ elementId) ;; flag_error.

Definition check_function (p : page) (funcName : string) : step :=
  if has_function p funcName then say Log ("Found function: " ++ funcName)
  else say Error ("Missing function: " ++ funcName) ;; flag_error.

Definition check_listener (p : page) (btn : button) : step :=
  if has_listener p (id btn) then
    say Log ("Event listener attached to #" ++ id btn)
  else say Error ("No event listener for #" ++ id btn) ;; flag_error.

Definition check_script (p : page) : step :=
  match scriptMatch p with
  | Some sc =>
      (if (openBraces sc =? closeBraces sc)%nat then
         say Log ("Braces balanced: " ++ show (openBraces sc) ++ " opening, "
                  ++ show (closeBraces sc) ++ " closing")
       else
         say Error ("Braces unbalanced: " ++ show (openBraces sc)
                    ++ " opening, " ++ show (closeBraces sc) ++ " closing") ;;
         flag_error) ;;
      (if (openParens sc =? closeParens sc)%nat then
         say Log ("Parentheses balanced: " ++ show (openParens sc)
                  ++ " opening, " ++ show (closeParens sc) ++ " closing")
       else
         say Error ("Parentheses unbalanced: " ++ show (openParens sc)
                    ++ " opening, " ++ show (closeParens sc) ++ " closing") ;;
         flag_error) ;;
      (if iife sc then say Log "JavaScript wrapped in IIFE"
       else say Warn "JavaScript not wrapped in IIFE (may cause global namespace pollution)")
  | None => say Error "No script tag found" ;; flag_error
  end.

Definition check_button_class (p : page) (btn : button) : step :=
  if has_button_class p (id btn) then
    say Log ("#" ++ id btn ++ " has proper Bootstrap button class")
  else say Error ("#" ++ id btn ++ " missing Bootstrap button class") ;;
       flag_error.

(** [testGeneratorPage]; the file is absent ([None]) or read. *)
Definition testGeneratorPage (f : option page) (htmlPath pageName : string)
    (exp : expectations) : step :=
  say Log ("=== Testing " ++ pageName ++ " ===") ;;
  match f with
  | None => say Error ("File not found: " ++ htmlPath) ;; flag_error
  | Some p =>
      say Log "Checking required DOM elements..." ;;
      each (check_element p) (elements exp) ;;
      say Log "Checking required JavaScript functions..." ;;
      each (check_function p) (functions exp) ;;
      say Log "Checking event listeners..." ;;
      each (check_listener p) (buttons exp) ;;
      say Log "Checking JavaScript syntax..." ;;
      check_script p ;;
      say Log "Checking button styling..." ;;
      each (check_button_class p) (buttons exp) ;;
      say Log (pageName ++ " tests completed")
  end.

Definition prompts_expectations : expectations :=
  {| elements := ["generateBtn"; "promptDisplay"; "promptText"; "copyBtn"];
     functions := ["generatePrompt"; "copyPrompt"; "getRandomElement";
                   "shuffle"];
     buttons := [ {| id := "generateBtn"; action := "generate" |};
                  {| id := "copyBtn"; action := "copy" |} ] |}.

Definition wuxia_expectations : expectations :=
  {| elements := ["genname"; "nameDisplay"; "includeZi"];
     functions := ["generateName"];
     buttons := [ {| id := "genname"; action := "generate" |} ] |}.

Record site := {
  writingprompts : option page;
  wuxianame : option page
}.

(** Everything the script does before its final summary. *)
Definition checks (s : site) : step :=
  say Log "Starting generator functionality tests..." ;;
  testGeneratorPage (writingprompts s) "_pages/writingprompts.html"
    "Writing Prompts Generator" prompts_expectations ;;
  testGeneratorPage (wuxianame s) "_pages/wuxianame.html"
    "Wuxia Name Generator" wuxia_expectations.

(** The script has no warning flag: its summary looks at [hasErrors]
    only. *)
Definition summary (r : run) : console * nat :=
  if hasErrors r then
    ([(Log, "=== Test Summary ===");
      (Error, "Some generator tests FAILED. Please fix the errors above.")],
     1)
  else
    ([(Log, "=== Test Summary ===");
      (Log, "All generator tests PASSED!")],
     0).

Definition exit_of (s : site) : nat := snd (summary (checks s start)).

Lemma tracked_check_script (p : page) : tracked (check_script p).
Proof.
  unfold check_script. destruct (scriptMatch p); repeat tracked_step.
Qed.

Lemma tracked_testGeneratorPage (f : option page) (path name : string)
    (exp : expectations) :
  tracked (testGeneratorPage f path name exp).
Proof.
  unfold testGeneratorPage. tracked_step; [tracked_step | ].
  destruct f as [p | ]; [ | tracked_step].
  repeat first
    [ apply tracked_check_script
    | apply tracked_each; intros x;
      unfold check_element, check_function, check_listener,
        check_button_class
    | tracked_step ].
Qed.

Lemma tracked_generator_checks (s : site) : tracked (checks s).
Proof.
  unfold checks. tracked_step; [tracked_step | ].
  tracked_step; apply tracked_testGeneratorPage.
Qed.

(** X21. The generator script ends with a non-zero code exactly when one of its
    checks printed an error line; warnings do not change the code. *)
Lemma generators_exit (s : site) :
  exit_of s <> 0 <-> failed (printed (checks s start)) = true.
Proof.
  unfold exit_of, summary.
  rewrite (tracked_generator_checks s start) by reflexivity.
  destruct (hasErrors (checks s start)); simpl; split; intros; congruence.
Qed.

End Generators.

(** ** The shuffle of the writing-prompt generator *)

Module Shuffle.

Section FisherYates.

Variable A : Type.

(** Modelled from the spec: the source of randomness of [shuffle], whose
    code ([_pages/writingprompts.html]) is not among the source files.
    [random i] stands for the number drawn when the element at index [i] is
    placed; it is brought into the range 0..i. *)
Variable random : nat -> nat.

(** Modelled from the spec: writing [x] at index [i] of the sequence, part
    of the exchange of two elements; [_pages/writingprompts.html] is not
    among the source files. *)
Fixpoint update (l : list A) (i : nat) (x : A) : list A :=
  match l, i with
  | [], _ => []
  | _ :: l', 0 => x :: l'
  | y :: l', S i' => y :: update l' i' x
  end.

(** Modelled from the spec: the exchange of the elements at indices [i] and
    [j], the step of a Fisher-Yates shuffle; [_pages/writingprompts.html]
    is not among the source files. *)
Definition swap (l : list A) (i j : nat) : list A :=
  match nth_error l i, nth_error l j with
  | Some x, Some y => update (update l j x) i y
  | _, _ => l
  end.

(** Modelled from the spec: the loop of a Fisher-Yates shuffle, from index
    [i] down to 1: the element at [i] is exchanged with the one at a random
    index not above [i]; [_pages/writingprompts.html] is not among the
    source files. *)
Fixpoint shuffle_from (i : nat) (l : list A) : list A :=
  match i with
  | 0 => l
  | S i' => shuffle_from i' (swap l i (random i mod S i))
  end.

(** Modelled from the spec: [shuffle(sequence)], the random permutation the
    specification asks for as a Fisher-Yates shuffle; the page that defines
    it, [_pages/writingprompts.html], is not among the source files. *)
Definition shuffle (l : list A) : list A :=
  shuffle_from (List.length l - 1) l.

Lemma length_update (l : list A) :
  forall i x, List.length (update l i x) = List.length l.
Proof.
  induction l as [ | y l IH]; intros [ | i] x; simpl; auto.
Qed.

Lemma nth_error_update (l : list A) :
  forall i j x, nth_error l i = Some x -> nth_error (update l j x) i = Some x.
Proof.
  induction l as [ | y l IH]; intros i j x H.
  - now destruct i.
  - destruct i as [ | i], j as [ | j]; simpl in *; auto.
Qed.

(** Writing [y] over [x] trades one for the other. *)
Lemma update_trade (l : list A) :
  forall i x y, nth_error l i = Some x ->
  Permutation (y :: l) (x :: update l i y).
Proof.
  induction l as [ | z l IH]; intros i x y H.
  - now destruct i.
  - destruct i as [ | i]; simpl in *.
    + injection H as ->. apply perm_swap.
    + rewrite (perm_swap z y l), (perm_swap z x (update l i y)).
      constructor. now apply IH.
Qed.

Lemma swap_perm (l : list A) (i j : nat) : Permutation l (swap l i j).
Proof.
  unfold swap.
  destruct (nth_error l i) as [x | ] eqn:Hi; [ | reflexivity].
  destruct (nth_error l j) as [y | ] eqn:Hj; [ | reflexivity].
  apply Permutation_cons_inv with (a := x).
  rewrite (update_trade l j x Hj).
  apply update_trade. now apply nth_error_update.
Qed.

Lemma shuffle_from_perm (i : nat) :
  forall l, Permutation l (shuffle_from i l).
Proof.
  induction i as [ | i IH]; intros l; simpl; [reflexivity | ].
  rewrite <- IH. apply swap_perm.
Qed.

(** C8. Whatever numbers are drawn, [shuffle] returns a permutation of its
    argument: the same elements as often, and the same length; the empty
    sequence and a sequence of one element are returned as they are. *)
Theorem shuffle_is_permutation (l : list A) :
  Permutation l (shuffle l)
  /\ List.length (shuffle l) = List.length l
  /\ shuffle [] = []
  /\ (forall x, shuffle [x] = [x]).
Proof.
  split; [apply shuffle_from_perm | ].
  split; [symmetry; apply Permutation_length, shuffle_from_perm | ].
  split; reflexivity.
Qed.

End FisherYates.

Example shuffle_four :
  shuffle (fun i => i + 1) ["a"; "b"; "c"; "d"]%string
  = ["b"; "c"; "d"; "a"]%string.
Proof. reflexivity. Qed.

End Shuffle.

(** ** More on the timeline re-sorter *)

Module TimelineFacts.

Import Js ArraySort Timeline.
Local Open Scope Z_scope.
Local Open Scope string_scope.
Local Open Scope list_scope.

(** Works dated and counted as on the page; two of them have 190 words. *)
Definition page_equal_counts : page :=
  {| timeline :=
       Some [ TextNode " ";
              work "2020-03-18" "March 2020" "190" "Victor St.";
              TextNode " ";
              work "2020-06-10" "June 2020" "130" "hurricane eye, neat";
              TextNode " ";
              work "2020-08-06" "August 2020" "190" "to my ghost by the sound" ];
     out := [];
     style := [] |}.

(** X1. The comparison function is antisymmetric on all nodes, with or
    without keys: exchanging its arguments changes the sign of its answer. *)
Theorem comparator_antisymmetric (keySelector : string) (isdate : bool)
    (a b : node) :
  comparator keySelector isdate a b = - comparator keySelector isdate b a.
Proof.
  unfold comparator. destruct isdate.
  - destruct (attr_id (find keySelector a)) as [x | ],
             (attr_id (find keySelector b)) as [y | ]; trivial.
    unfold gt_attr, lt_attr, str_gt, str_lt.
    rewrite (String.compare_antisym x y).
    now destruct (String.compare y x).
  - destruct (parseInt (text (find keySelector a))) as [x | ],
             (parseInt (text (find keySelector b))) as [y | ]; trivial.
    unfold gt_num, lt_num, Z.gtb, Z.ltb.
    rewrite (Z.compare_antisym y x).
    now destruct (Z.compare y x).
Qed.

(** X2. A work without the selected key (no id on its date span, a count
    text that reads as NaN) compares equal to every node, on either side. *)
Theorem comparator_without_key (k : sort_key) (a b : node) :
  has_key k a = false ->
  compare_by k a b = 0 /\ compare_by k b a = 0.
Proof.
  intros H.
  assert (E : compare_by k a b = 0).
  { destruct k; unfold has_key, date_of, wc_of in H;
      unfold compare_by, comparator; cbv zeta.
    - destruct (attr_id (find "date" a)); [discriminate | reflexivity].
    - destruct (parseInt (text (find "wc" a))); [discriminate | reflexivity]. }
  split; [exact E | ].
  destruct k; unfold compare_by in *;
    rewrite comparator_antisymmetric, E; reflexivity.
Qed.

Lemma keys_after_resort (E : Engine) (k k' : sort_key) (pg : page) :
  Forall (fun x => has_key k' x = true) (items pg) ->
  Forall (fun x => has_key k' x = true) (items (resort E k pg)).
Proof.
  intros K. rewrite items_resort.
  apply (Permutation_Forall (array_sort_perm E (compare_by k) (items pg)) K).
Qed.

(** X3. When every work carries the key, the works stand in descending
    order of the key after the call. *)
Theorem resort_sorts (E : Engine) (k : sort_key) (pg : page) :
  Forall (fun x => has_key k x = true) (items pg) ->
  sorted_by k (items (resort E k pg)).
Proof.
  intros K. split; [now apply keys_after_resort | ].
  rewrite items_resort. apply (array_sort_sorted E).
  now apply compare_by_consistent.
Qed.

(** X4. When every work carries the key, the page after the call is the
    same whichever engine sorts: timeline, console and styling calls. *)
Theorem resort_engine_independent (E1 E2 : Engine) (k : sort_key) (pg : page) :
  Forall (fun x => has_key k x = true) (items pg) ->
  resort E1 k pg = resort E2 k pg.
Proof.
  intros K.
  assert (H : array_sort E1 (compare_by k) (items pg)
              = array_sort E2 (compare_by k) (items pg)).
  { rewrite !array_sort_unique; trivial; now apply compare_by_consistent. }
  destruct k; unfold resort, sortdate, sortwc, sortUsingNestedText;
    unfold compare_by, items in H; now rewrite H.
Qed.

Definition other (n : node) : bool := negb (matches "li" n).

Lemma timeline_after_resort (E : Engine) (k : sort_key) (pg : page) :
  timeline (resort E k pg)
  = match timeline pg with
    | Some ns => Some (filter other ns ++ items (resort E k pg))
    | None => None
    end.
Proof.
  rewrite items_resort. rewrite timeline_resort.
  destruct k; unfold sortUsingNestedText, items, compare_by; cbn [fst];
    (destruct (timeline pg) as [ns | ]; [ | reflexivity]);
    apply append_rearranged; apply array_sort_perm.
Qed.

(** X5. A call gathers the works at the end of the timeline: the child
    nodes that are no works (the text between them) come first, in their
    order, and the works follow in their new order. *)
Theorem resort_gathers_works (E : Engine) (k : sort_key) (pg : page) :
  nodes (resort E k pg) = filter other (nodes pg) ++ items (resort E k pg).
Proof.
  unfold nodes at 1 2. rewrite timeline_after_resort.
  destruct (timeline pg) as [ns | ] eqn:T; trivial.
  simpl. rewrite items_resort. unfold items. rewrite T. simpl.
  symmetry. apply Permutation_nil, (array_sort_perm E).
Qed.

Lemma filter_other_works (l : list node) :
  Forall (fun n => matches "li" n = true) l -> filter other l = [].
Proof.
  induction 1 as [ | x l H F IH]; simpl; trivial.
  unfold other at 1. now rewrite H.
Qed.

Lemma filter_other_twice (l : list node) :
  filter other (filter other l) = filter other l.
Proof.
  induction l as [ | x l IH]; simpl; trivial.
  destruct (other x) eqn:O; simpl; [rewrite O | ]; now rewrite IH.
Qed.

Lemma items_are_works (pg : page) :
  Forall (fun n => matches "li" n = true) (items pg).
Proof.
  unfold items, children. destruct (timeline pg) as [ns | ]; [ | constructor].
  apply Forall_forall. intros x I. now apply filter_In in I.
Qed.

(** X6. When every work carries the key, a second call with the same key
    changes nothing in the timeline: works and text nodes stay where the
    first call put them. *)
Theorem resort_twice_same_timeline (E : Engine) (k : sort_key) (pg : page) :
  Forall (fun x => has_key k x = true) (items pg) ->
  timeline (resort E k (resort E k pg)) = timeline (resort E k pg).
Proof.
  intros K.
  rewrite (timeline_after_resort E k (resort E k pg)).
  rewrite (resort_idempotent E k pg K).
  rewrite (timeline_after_resort E k pg).
  destruct (timeline pg) as [ns | ]; trivial.
  rewrite filter_app, filter_other_twice.
  rewrite (filter_other_works (items_are_works (resort E k pg))).
  now rewrite app_nil_r.
Qed.

Lemma sorted_middle (R : node -> node -> Prop) (l1 l2 : list node) (a : node) :
  StronglySorted R (l1 ++ a :: l2) -> Forall (fun x => R x a) l1.
Proof.
  induction l1 as [ | x l1 IH]; simpl; intros S; [constructor | ].
  inversion S as [ | ? ? S' F]; subst. constructor; [ | now apply IH].
  rewrite Forall_forall in F. apply F. apply in_or_app. right. now left.
Qed.

(** In a list in sort order, a node that compares strictly before another
    stands before it. *)
Lemma sorted_before (cmp : node -> node -> Z) (l : list node) (a b : node) :
  StronglySorted (cle cmp) l -> In a l -> In b l ->
  cmp a a = 0 -> cmp b a = - cmp a b -> cmp a b < 0 ->
  before a b l.
Proof.
  intros S Ia Ib Ra Anti Lt.
  apply in_split in Ia. destruct Ia as (l1 & l2 & ->).
  apply in_app_or in Ib. destruct Ib as [Ib | [Eb | Ib]].
  - pose proof (sorted_middle _ _ _ S) as F. rewrite Forall_forall in F.
    specialize (F b Ib). unfold cle in F. lia.
  - subst b. lia.
  - apply in_split in Ib. destruct Ib as (m1 & m2 & ->).
    now exists l1, m1, m2.
Qed.

(** X7. Sorting by one key and then by another orders the works by the
    second key and, among works that tie in it, by the first: if [a] comes
    strictly before [b] by the first key and ties with it in the second,
    [a] stands before [b] in the end. *)
Theorem resort_ties_keep_previous_order (E : Engine) (k1 k2 : sort_key)
    (pg : page) (a b : node) :
  Forall (fun x => has_key k1 x = true) (items pg) ->
  Forall (fun x => has_key k2 x = true) (items pg) ->
  In a (items pg) -> In b (items pg) ->
  compare_by k1 a b < 0 -> compare_by k2 a b = 0 ->
  before a b (items (resort E k2 (resort E k1 pg))).
Proof.
  intros K1 K2 Ia Ib Lt Eq.
  pose proof (compare_by_consistent k1 K1) as C1.
  pose proof (keys_after_resort E k1 k2 pg K2) as K2'.
  pose proof (compare_by_consistent k2 K2') as C2.
  assert (P : Permutation (items pg) (items (resort E k1 pg))).
  { rewrite items_resort. apply array_sort_perm. }
  assert (B : before a b (items (resort E k1 pg))).
  { apply sorted_before with (cmp := compare_by k1); trivial.
    - rewrite items_resort. now apply (array_sort_sorted E).
    - now apply (Permutation_in _ P).
    - now apply (Permutation_in _ P).
    - now apply (cf_refl C1).
    - destruct k1; apply comparator_antisymmetric. }
  assert (Ia' : In a (items (resort E k1 pg))) by now apply (Permutation_in _ P).
  apply ties_before with (cmp := compare_by k2) (l := items (resort E k1 pg));
    trivial.
  - now apply (cf_refl C2).
  - rewrite (items_resort E k2). now apply array_sort_stable.
Qed.






(** *** The properties at sample pages *)

Lemma comparator_without_key_at_blank :
  compare_by ByWordCount (work "2020-03-18" "March 2020" "" "a review")
    tie_first = 0
  /\ compare_by ByWordCount tie_first
       (work "2020-03-18" "March 2020" "" "a review") = 0.
Proof.
  apply (@comparator_without_key ByWordCount). reflexivity.
Defined.

Lemma resort_sorts_at_equal_counts :
  sorted_by ByWordCount
    (items (resort insertion_engine ByWordCount page_equal_counts)).
Proof.
  apply (@resort_sorts insertion_engine ByWordCount page_equal_counts).
  repeat constructor.
Defined.

Lemma resort_engine_independent_at_equal_counts :
  resort insertion_engine ByWordCount page_equal_counts
  = resort binary_insertion_engine ByWordCount page_equal_counts.
Proof.
  apply (@resort_engine_independent insertion_engine binary_insertion_engine
           ByWordCount page_equal_counts).
  repeat constructor.
Defined.

Lemma resort_twice_same_timeline_at_equal_counts :
  timeline (resort insertion_engine ByDate
              (resort insertion_engine ByDate page_equal_counts))
  = timeline (resort insertion_engine ByDate page_equal_counts).
Proof.
  apply (@resort_twice_same_timeline insertion_engine ByDate page_equal_counts).
  repeat constructor.
Defined.

Lemma resort_ties_keep_previous_order_at_equal_counts :
  before (work "2020-08-06" "August 2020" "190" "to my ghost by the sound")
         (work "2020-03-18" "March 2020" "190" "Victor St.")
         (items (resort insertion_engine ByWordCount
                   (resort insertion_engine ByDate page_equal_counts))).
Proof.
  apply (@resort_ties_keep_previous_order insertion_engine ByDate ByWordCount
           page_equal_counts).
  - repeat constructor.
  - repeat constructor.
  - simpl. auto.
  - simpl. auto.
  - reflexivity.
  - reflexivity.
Defined.


End TimelineFacts.

(** ** More on the steps of the scripts *)

Module ScriptFacts.

Import Js Script.
Local Open Scope string_scope.
Local Open Scope list_scope.


(** A loop that passes or fails each item raises the error flag exactly
    when some item fails. *)
Lemma flags_each_checked (A : Type) (ok : A -> bool) (m m' : A -> string)
    (xs : list A) :
  flags (each (fun x => if ok x then say Log (m x)
                        else say Error (m' x) ;; flag_error) xs)
        (negb (forallb ok xs)) false.
Proof.
  unfold each. induction xs as [ | x xs IH]; intros r; simpl.
  - now rewrite !orb_false_r.
  - destruct (IH ((if ok x then say Log (m x)
                   else say Error (m' x) ;; flag_error) r)) as [-> ->].
    destruct (ok x); unfold seq; simpl.
    + auto.
    + now rewrite orb_true_r, orb_false_r.
Qed.


Lemma flags_error_unless (c : bool) (good bad : string) :
  flags (if c then say Log good else say Error bad ;; flag_error)
        (negb c) false.
Proof. destruct c; flags_closed. Qed.


End ScriptFacts.

(** ** More on tests/accessibility.js *)

Module AccessibilityFacts.

Import Js Script ScriptFacts Accessibility.
Local Open Scope string_scope.
Local Open Scope list_scope.

Definition lang_ok (doc : document) : bool :=
  match html_lang doc with
  | Some lang => truthy lang
  | None => false
  end.

(** Whether the walk over the headings raises the warning flag. *)
Fixpoint heading_warning (idx previousLevel : nat) (hs : list nat) : bool :=
  match hs with
  | [] => false
  | level :: hs' =>
      ((idx =? 0)%nat && negb (level =? 1)%nat)
      || (((0 <? previousLevel)%nat && (previousLevel + 1 <? level)%nat)
      || heading_warning (S idx) level hs')
  end.

(** The faults that fail a document. *)
Definition hard_failure (doc : document) : bool :=
  negb (lang_ok doc)
  || (existsb alt_missing (images doc)
  || (existsb unlabeled (inputs doc)
  || (existsb link_empty (links doc)
  || existsb unnamed (buttons doc)))).

(** The faults that only warn. *)
Definition soft_failure (doc : document) : bool :=
  heading_warning 0 0 (headings doc)
  || (existsb link_vague (links doc)
  || (negb (nav doc)
  || (negb (main doc)
  || (negb (header doc)
  || negb (footer doc))))).

Definition file_fails (f : file) : bool :=
  match f with
  | Parsed doc => hard_failure doc
  | _ => true
  end.

Definition file_warns (f : file) : bool :=
  match f with
  | Parsed doc => soft_failure doc
  | _ => false
  end.

(** A sample page is looked at only when its file exists. *)
Definition page_fails (f : file) : bool :=
  match f with
  | Missing => false
  | _ => file_fails f
  end.

Definition site_fails (s : site) : bool :=
  file_fails (default_layout s)
  || (file_fails (header_include s)
  || (file_fails (footer_include s)
  || (page_fails (books_page s)
  || page_fails (about_page s)))).

Definition site_warns (s : site) : bool :=
  file_warns (default_layout s)
  || (file_warns (header_include s)
  || (file_warns (footer_include s)
  || (file_warns (books_page s)
  || file_warns (about_page s)))).















(** The document of [page_with_empty_alt] with an image that has no [alt]
    at all, and one whose images all have a text. *)
Definition image_without_alt : img :=
  {| img_src := Some "assets/images/about/me.jpg"; img_alt := None |}.

Definition page_with_image_without_alt : document :=
  {| html_lang := Some (Some "en");
     headings := [1];
     images := [image_without_alt];
     inputs := [];
     links := [];
     buttons := [];
     nav := true; main := true; header := true; footer := true |}.

Lemma image_without_alt_fails_at_page :
  hasErrors (check_images page_with_image_without_alt start) = true
  /\ failed (printed (check_images page_with_image_without_alt start)) = true.
Proof.
  apply (@image_without_alt_fails page_with_image_without_alt
           image_without_alt start).
  - simpl. auto.
  - reflexivity.
Defined.

Lemma images_with_alt_pass_at_blank :
  hasErrors (check_images page_with_blank_alt start) = hasErrors start
  /\ hasWarnings (check_images page_with_blank_alt start) = hasWarnings start
  /\ failed (printed (check_images page_with_blank_alt start))
     = failed (printed start)
  /\ warned (printed (check_images page_with_blank_alt start))
     = warned (printed start).
Proof.
  apply (@images_with_alt_pass page_with_blank_alt start).
  repeat constructor.
Defined.

End AccessibilityFacts.

(** ** More on the SEO compliance script *)

Module SeoFacts.

Import Js Script ScriptFacts Seo.
Local Open Scope string_scope.
Local Open Scope list_scope.

Definition file_fails (f : file) (isCompleteDoc : bool) : bool :=
  match f with
  | Parsed doc => hard_failure doc isCompleteDoc
  | _ => true
  end.

Definition file_warns (f : file) : bool :=
  match f with
  | Parsed doc => soft_missing doc
  | _ => false
  end.

(** The four fields a manifest must have. *)
Definition manifest_complete (m : manifest_json) : bool :=
  m_name m && m_short_name m && m_start_url m && m_display m.

Definition has_icons (m : manifest_json) : bool :=
  match m_icons m with
  | Some n => (0 <? n)%nat
  | None => false
  end.

Definition manifest_fails (f : manifest_file) : bool :=
  match f with
  | Manifest m => negb (manifest_complete m)
  | _ => true
  end.

Definition manifest_warns (f : manifest_file) : bool :=
  match f with
  | Manifest m => negb (has_icons m) || negb (m_theme_color m)
  | _ => false
  end.

Definition robots_fails (f : option string) : bool :=
  match f with
  | Some content => negb (includes "Sitemap:" content)
  | None => true
  end.

(** What fails the site, and what only warns: the head template, the
    manifest and [robots.txt].  The sample pages are in neither. *)
Definition site_fails (s : site) : bool :=
  file_fails (head_html s) false
  || (manifest_fails (manifest_file_json s)
  || robots_fails (robots_txt s)).

Definition site_warns (s : site) : bool :=
  file_warns (head_html s) || manifest_warns (manifest_file_json s).

(** The site with other sample pages. *)
Definition with_pages (s : site) (books about : option (list string)) : site :=
  {| robots_txt := robots_txt s;
     manifest_file_json := manifest_file_json s;
     head_html := head_html s;
     books_page := books;
     about_page := about |}.

(** No image tag of the page lacks [alt=]. *)
Definition page_clean (f : option (list string)) : bool :=
  match f with
  | Some imgTags => negb (existsb tag_without_alt imgTags)
  | None => true
  end.

Lemma flags_testFileExists (present : bool) (path description : string) :
  flags (testFileExists present path description) (negb present) false.
Proof. unfold testFileExists. destruct present; flags_closed. Qed.

Lemma flags_html (f : file) (path name : string) (isCompleteDoc : bool) :
  flags (testHTMLForSEO f path name isCompleteDoc)
        (file_fails f isCompleteDoc) (file_warns f).
Proof.
  destruct f as [ | message | doc];
    [unfold testHTMLForSEO; flags_closed
    | unfold testHTMLForSEO; flags_closed
    | apply flags_testHTMLForSEO].
Qed.

Lemma flags_testManifest (f : manifest_file) :
  flags (testManifest f) (manifest_fails f) (manifest_warns f).
Proof.
  unfold testManifest, check_field, manifest_fails, manifest_warns,
    manifest_complete, has_icons.
  destruct f as [ | message | m]; [flags_closed | flags_closed | ].
  destruct (m_name m), (m_short_name m), (m_start_url m), (m_display m),
    (match m_icons m with Some n => (0 <? n)%nat | None => false end),
    (m_theme_color m); flags_closed.
Qed.

Lemma flags_testRobotsTxt (f : option string) :
  flags (testRobotsTxt f) (robots_fails f) false.
Proof.
  unfold testRobotsTxt, robots_fails.
  destruct f as [content | ]; [ | flags_closed].
  destruct (includes "Sitemap:" content), (includes "User-agent:" content);
    flags_closed.
Qed.

Lemma flags_seo_page (f : option (list string)) (name : string) :
  flags (test_page f name) false false.
Proof.
  unfold test_page. destruct f as [imgTags | ]; [ | apply flags_skip].
  cbv zeta.
  eapply flags_eq;
    [ | | eapply flags_seq;
          [apply (flags_each_say tag_without_alt Error
                    (fun _ => (name ++ ": Image tag missing alt attribute")%string))
          | ] ].
  3: { instantiate (1 := false). instantiate (1 := false).
       destruct ((0 <? List.length imgTags)%nat
                 && (List.length (filter tag_without_alt imgTags) =? 0)%nat);
         [ | destruct (List.length imgTags =? 0)%nat]; flags_closed. }
  all: reflexivity.
Qed.

Lemma flags_seo_checks (s : site) : flags (checks s) (site_fails s) (site_warns s).
Proof.
  unfold checks.
  eapply flags_eq;
    [ | | eapply flags_seq; [apply flags_say | ];
          eapply flags_seq; [apply flags_say | ];
          eapply flags_seq; [apply flags_testFileExists | ];
          eapply flags_seq; [apply flags_testFileExists | ];
          eapply flags_seq; [apply flags_say | ];
          eapply flags_seq; [apply flags_html | ];
          eapply flags_seq; [apply flags_say | ];
          eapply flags_seq; [apply flags_seo_page | ];
          eapply flags_seq; [apply flags_seo_page | ];
          eapply flags_seq; [apply flags_testManifest
                            | apply flags_testRobotsTxt] ].
  - unfold site_fails, robots_fails, manifest_fails, is_some, manifest_present.
    cbn [orb].
    destruct (robots_txt s), (manifest_file_json s);
      cbn [negb orb]; rewrite ?orb_true_r, ?orb_false_r; reflexivity.
  - unfold site_warns. cbn [orb]. now rewrite orb_false_r.
Qed.

(** X14. On any file the HTML check raises the error flag exactly when the
    file is absent, is not parsed, or fails a hard check (viewport, Open
    Graph title, description and url, Twitter card, canonical link, title,
    JSON-LD that does not parse, an image without alt text and, for a
    complete document, [lang]); it raises the warning flag exactly when a
    soft feature is missing from a parsed file. *)
Theorem seo_html_check_flags (f : file) (path name : string)
    (isCompleteDoc : bool) (r : run) :
  hasErrors (testHTMLForSEO f path name isCompleteDoc r)
  = hasErrors r || file_fails f isCompleteDoc
  /\ hasWarnings (testHTMLForSEO f path name isCompleteDoc r)
     = hasWarnings r || file_warns f.
Proof. apply flags_html. Qed.

(** X15. The flags at the end of the SEO script, and its exit code: the
    error flag is raised exactly when the head template, the manifest (absent,
    not parsed or lacking one of name, short_name, start_url and display) or
    [robots.txt] (absent or without a Sitemap line) fails; the warning flag
    exactly when the head lacks a soft feature or the manifest lacks icons or
    a theme colour. *)
Theorem seo_verdict (s : site) :
  hasErrors (checks s start) = site_fails s
  /\ hasWarnings (checks s start) = site_warns s
  /\ exit_of s = if site_fails s then 1 else 0.
Proof.
  destruct (flags_seo_checks s start) as [He Hw]. cbn in He, Hw.
  repeat split; trivial.
  unfold exit_of, summary. rewrite He.
  destruct (site_fails s); [reflexivity | ].
  now destruct (hasWarnings (checks s start)).
Qed.

(** X16. The sample pages never change the outcome: whatever image tags
    [_pages/books.html] and [_pages/about.md] hold, and whether the files
    exist, the flags and the exit code are the same. *)
Theorem seo_pages_do_not_count (s : site) (books about : option (list string)) :
  hasErrors (checks (with_pages s books about) start)
  = hasErrors (checks s start)
  /\ hasWarnings (checks (with_pages s books about) start)
     = hasWarnings (checks s start)
  /\ exit_of (with_pages s books about) = exit_of s.
Proof.
  destruct (flags_seo_checks s start) as [He Hw].
  destruct (flags_seo_checks (with_pages s books about) start) as [He' Hw'].
  unfold exit_of, summary. rewrite He, Hw, He', Hw'. auto.
Qed.

Lemma tracked_seo_images (doc : document) : tracked (check_images doc).
Proof.
  unfold check_images. tracked_step; [tracked_step | ].
  apply (tracked_counted alt_missing
           (fun i => ("Image missing alt text: "
                      ++ or_else (img_src i) "unknown")%string));
    tracked_step.
Qed.

Lemma tracked_testHTMLForSEO (f : file) (path name : string)
    (isCompleteDoc : bool) :
  tracked (testHTMLForSEO f path name isCompleteDoc).
Proof.
  unfold testHTMLForSEO. tracked_step; [tracked_step | ].
  destruct f as [ | message | doc]; [tracked_step | tracked_step | ].
  tracked_step.
  { unfold check_description. tracked_step; [tracked_step | ].
    destruct (metaDesc doc); repeat tracked_step. }
  tracked_step; [unfold check_viewport; repeat tracked_step | ].
  tracked_step; [unfold check_open_graph; repeat tracked_step | ].
  tracked_step; [unfold check_twitter; repeat tracked_step | ].
  tracked_step; [unfold check_canonical; repeat tracked_step | ].
  tracked_step; [unfold check_theme_color; repeat tracked_step | ].
  tracked_step; [unfold check_title; repeat tracked_step | ].
  tracked_step; [unfold check_manifest_link; repeat tracked_step | ].
  tracked_step; [unfold check_favicon; repeat tracked_step | ].
  tracked_step; [unfold check_apple_touch_icon; repeat tracked_step | ].
  tracked_step.
  { unfold check_structured_data.
    destruct (structuredData doc); repeat tracked_step. }
  tracked_step; [apply tracked_seo_images | ].
  tracked_step; [unfold check_lang; repeat tracked_step | tracked_step].
Qed.

Lemma tracked_testManifest (f : manifest_file) : tracked (testManifest f).
Proof.
  unfold testManifest, check_field. tracked_step; [tracked_step | ].
  destruct f; repeat tracked_step.
Qed.

Lemma tracked_testRobotsTxt (f : option string) : tracked (testRobotsTxt f).
Proof.
  unfold testRobotsTxt. tracked_step; [tracked_step | ].
  destruct f; repeat tracked_step.
Qed.

Lemma tracked_clean_page (f : option (list string)) (name : string) :
  page_clean f = true -> tracked (test_page f name).
Proof.
  unfold test_page, page_clean.
  destruct f as [imgTags | ]; [ | intros _; tracked_step].
  intros Cl r H. cbv zeta. unfold seq.
  destruct (each_say tag_without_alt Error
              (fun _ => (name ++ ": Image tag missing alt attribute")%string)
              imgTags r) as (He & _ & Hf & _).
  cbv zeta in He, Hf.
  apply negb_true_iff in Cl. rewrite Cl, andb_false_r, orb_false_r in Hf.
  assert (T : tracked
                (if (0 <? List.length imgTags)%nat
                    && (List.length (filter tag_without_alt imgTags) =? 0)%nat
                 then say Log (name ++ ": All " ++ show (List.length imgTags)
                               ++ " images have alt attributes")
                 else if (List.length imgTags =? 0)%nat
                 then say Log (name ++ ": No images found")
                 else skip))
    by repeat tracked_step.
  apply T. unfold check_tag. now rewrite Hf, He.
Qed.

Lemma tracked_clean_checks (s : site) :
  page_clean (books_page s) = true -> page_clean (about_page s) = true ->
  tracked (checks s).
Proof.
  intros Cb Ca. unfold checks, testFileExists.
  tracked_step; [tracked_step | ].
  tracked_step; [tracked_step | ].
  tracked_step; [repeat tracked_step | ].
  tracked_step; [repeat tracked_step | ].
  tracked_step; [tracked_step | ].
  tracked_step; [apply tracked_testHTMLForSEO | ].
  tracked_step; [tracked_step | ].
  tracked_step; [now apply tracked_clean_page | ].
  tracked_step; [now apply tracked_clean_page | ].
  tracked_step; [apply tracked_testManifest | apply tracked_testRobotsTxt].
Qed.

(** X17. When no image tag of the sample pages lacks [alt=], the SEO script
    exits with a non-zero code exactly when one of its checks printed an
    error line. *)
Theorem seo_exit_tracks_errors (s : site) :
  page_clean (books_page s) = true -> page_clean (about_page s) = true ->
  (exit_of s <> 0 <-> failed (printed (checks s start)) = true).
Proof.
  intros Cb Ca. unfold exit_of, summary.
  rewrite (tracked_clean_checks s Cb Ca start) by reflexivity.
  destruct (hasErrors (checks s start)); [ | destruct (hasWarnings _)];
    simpl; split; intros; congruence.
Qed.

Lemma seo_exit_tracks_errors_at_full_site :
  exit_of full_site <> 0 <-> failed (printed (checks full_site start)) = true.
Proof.
  apply (@seo_exit_tracks_errors full_site); reflexivity.
Defined.

(** X18. The two scripts judge an image differently: the SEO check counts
    as missing every [alt] the accessibility check counts as missing, and
    also every [alt] of white space only, which the accessibility check
    accepts as decorative. *)
Theorem seo_alt_test_is_stricter (src alt : option string) :
  alt_missing {| img_src := src; img_alt := alt |}
  = Accessibility.alt_missing
      {| Accessibility.img_src := src; Accessibility.img_alt := alt |}
    || Accessibility.alt_empty
         {| Accessibility.img_src := src; Accessibility.img_alt := alt |}.
Proof.
  unfold alt_missing, Accessibility.alt_missing, Accessibility.alt_empty.
  cbn. destruct alt as [a | ]; cbn; [ | reflexivity].
  destruct (String.eqb a ""); cbn; reflexivity.
Qed.

End SeoFacts.

(** ** More on tests/generators.js *)

Module GeneratorsFacts.

Import Js Script ScriptFacts Generators.
Local Open Scope string_scope.
Local Open Scope list_scope.

(** The first script of the page is absent, or its braces or its
    parentheses do not pair up. *)
Definition script_fails (p : page) : bool :=
  match scriptMatch p with
  | Some sc =>
      negb (openBraces sc =? closeBraces sc)%nat
      || negb (openParens sc =? closeParens sc)%nat
  | None => true
  end.

(** The faults that fail a generator page. *)
Definition page_fails (f : option page) (exp : expectations) : bool :=
  match f with
  | None => true
  | Some p =>
      negb (forallb (has_element p) (elements exp))
      || (negb (forallb (has_function p) (functions exp))
      || (negb (forallb (fun btn => has_listener p (id btn)) (buttons exp))
      || (script_fails p
      || negb (forallb (fun btn => has_button_class p (id btn))
                       (buttons exp)))))
  end.

Definition site_fails (s : site) : bool :=
  page_fails (writingprompts s) prompts_expectations
  || page_fails (wuxianame s) wuxia_expectations.

Lemma flags_check_script (p : page) :
  flags (check_script p) (script_fails p) false.
Proof.
  unfold check_script, script_fails.
  destruct (scriptMatch p) as [sc | ]; [ | flags_closed].
  destruct (openBraces sc =? closeBraces sc)%nat,
           (openParens sc =? closeParens sc)%nat, (iife sc); flags_closed.
Qed.

Lemma flags_testGeneratorPage (f : option page) (path name : string)
    (exp : expectations) :
  flags (testGeneratorPage f path name exp) (page_fails f exp) false.
Proof.
  unfold testGeneratorPage, page_fails.
  destruct f as [p | ]; [ | flags_closed].
  eapply flags_eq; cycle 2.
  - flags_step; [flags_step | ].
    flags_step; [flags_step | ].
    flags_step; [apply flags_each_checked | ].
    flags_step; [flags_step | ].
    flags_step; [apply flags_each_checked | ].
    flags_step; [flags_step | ].
    flags_step;
      [apply (flags_each_checked (fun btn => has_listener p (id btn))) | ].
    flags_step; [flags_step | ].
    flags_step; [apply flags_check_script | ].
    flags_step; [flags_step | ].
    flags_step;
      [apply (flags_each_checked (fun btn => has_button_class p (id btn)))
      | flags_step].
  - simpl. now rewrite !orb_false_r.
  - reflexivity.
Qed.

(** X19. A generator page raises the error flag exactly when its file is
    absent, an expected element, function, click listener or button class
    is not found, or its first script is absent or unbalanced; the script
    keeps no warning flag, and a missing function wrapper fails nothing. *)
Theorem generator_page_flags (f : option page) (path name : string)
    (exp : expectations) (r : run) :
  hasErrors (testGeneratorPage f path name exp r)
  = hasErrors r || page_fails f exp
  /\ hasWarnings (testGeneratorPage f path name exp r) = hasWarnings r.
Proof.
  destruct (flags_testGeneratorPage f path name exp r) as [-> ->].
  now rewrite orb_false_r.
Qed.

(** X20. The generator script exits with 1 when one of its two pages fails
    and with 0 otherwise. *)
Theorem generators_verdict (s : site) :
  exit_of s = if site_fails s then 1 else 0.
Proof.
  unfold exit_of, summary, checks, seq, site_fails.
  destruct (flags_testGeneratorPage (wuxianame s) "_pages/wuxianame.html"
              "Wuxia Name Generator" wuxia_expectations
              (testGeneratorPage (writingprompts s)
                 "_pages/writingprompts.html" "Writing Prompts Generator"
                 prompts_expectations
                 (say Log "Starting generator functionality tests..." start)))
    as [-> _].
  destruct (flags_testGeneratorPage (writingprompts s)
              "_pages/writingprompts.html" "Writing Prompts Generator"
              prompts_expectations
              (say Log "Starting generator functionality tests..." start))
    as [-> _].
  simpl.
  destruct (page_fails (writingprompts s) prompts_expectations),
           (page_fails (wuxianame s) wuxia_expectations); reflexivity.
Qed.

End GeneratorsFacts.

(** ** The validation script of the name generator

    The second script of tests/generators.js ([validateFile] and the lines
    around it). *)

Module Validate.

Import Js Script ScriptFacts.
Local Open Scope string_scope.
Local Open Scope list_scope.

Definition show (n : nat) : string := NilEmpty.string_of_uint (Nat.to_uint n).

(** What JSDOM makes of the page, as far as the script reads it: the text
    of each [script] element in document order, and whether the three
    elements asked for by [id] exist. *)
Record dom := {
  scripts : list string;
  nameDisplay : bool;
  genname : bool;
  includeZi : bool
}.

Inductive parse :=
| Throws (message : string)
| Dom (d : dom).

(** The file when it exists: its text and the outcome of parsing it. *)
Record read := {
  content : string;
  parsed : parse
}.

(** [s.split('\n')]. *)
Fixpoint split_lines (s : string) : list string :=
  match s with
  | EmptyString => [EmptyString]
  | String c s' =>
      if Ascii.eqb c "010" then EmptyString :: split_lines s'
      else match split_lines s' with
           | l :: ls => String c l :: ls
           | [] => [String c EmptyString]
           end
  end.

(** [(s.match(/c/g) || []).length] for a single character [c]. *)
Fixpoint count (c : ascii) (s : string) : nat :=
  match s with
  | EmptyString => 0
  | String d s' => (if Ascii.eqb c d then 1 else 0) + count c s'
  end.

(** [list.forEach((x, idx) => f x idx)], from index [idx] on. *)
Fixpoint each_from (A : Type) (f : A -> nat -> step) (idx : nat) (l : list A)
  : step :=
  match l with
  | [] => skip
  | x :: l' => f x idx ;; each_from f (S idx) l'
  end.

(** The check of one line of a script. *)
Definition check_line (line : string) (idx : nat) : step :=
  let trimmed := trim line in
  if String.prefix "//" trimmed || String.prefix "/*" trimmed
     || (String.length trimmed =? 0)%nat
  then skip
  else
    let openBraces := count "{" trimmed in
    let closeBraces := count "}" trimmed in
    if (closeBraces + 1 <? openBraces)%nat then
      say Warn ("Line " ++ show (idx + 1) ++ ": Possible brace mismatch")
    else skip.

(** Three double quotes in a row. *)
Definition triple_quote : string :=
  String "034" (String "034" (String "034" EmptyString)).

Definition runaway (scriptContent : string) : bool :=
  includes triple_quote scriptContent || includes "'''" scriptContent.

Definition nonempty (scriptContent : string) : bool :=
  (0 <? String.length (trim scriptContent))%nat.

Definition check_script (scriptContent : string) : step :=
  if nonempty scriptContent then
    each_from check_line 0 (split_lines scriptContent) ;;
    (if runaway scriptContent then
       say Error "Possible runaway string in script" ;; flag_error
     else skip)
  else skip.

Definition check_required (found : bool) (selector what : string) : step :=
  if negb found then
    say Error ("Missing required element: " ++ selector) ;; flag_error
  else say Log ("Found " ++ selector ++ " " ++ what).

(** [validateFile]; the file is absent ([None]) or read. *)
Definition validateFile (f : option read) (filePath : string) : step :=
  say Log ("Validating: " ++ filePath) ;;
  match f with
  | None => say Error ("File not found: " ++ filePath) ;; flag_error
  | Some rd =>
      (if includes "function" (content rd) && negb (includes "}" (content rd))
       then
         say Error ("Possible missing closing brace in " ++ filePath) ;;
         flag_error
       else skip) ;;
      match parsed rd with
      | Throws message =>
          say Error ("Error parsing " ++ filePath ++ ": " ++ message) ;;
          flag_error
      | Dom d =>
          let scriptCount := List.length (filter nonempty (scripts d)) in
          each check_script (scripts d) ;;
          say Log ("Found " ++ show scriptCount
                   ++ " non-empty script tag(s)") ;;
          check_required (nameDisplay d) "#nameDisplay" "element" ;;
          check_required (genname d) "#genname" "button" ;;
          check_required (includeZi d) "#includeZi" "checkbox" ;;
          say Log (filePath ++ " passed basic validation")
      end
  end.

(** Everything the script does before its final lines. *)
Definition checks (f : option read) : step :=
  say Log "Starting HTML/JavaScript validation tests..." ;;
  validateFile f "_pages/wuxianame.html".

Definition summary (r : run) : console * nat :=
  if hasErrors r then
    ([(Error, "Validation failed! Please fix errors before deploying.")], 1)
  else ([(Log, "All validation tests passed!")], 0).

Definition exit_of (f : option read) : nat := snd (summary (checks f start)).

(** *** What fails a file *)

Definition file_fails (f : option read) : bool :=
  match f with
  | None => true
  | Some rd =>
      (includes "function" (content rd) && negb (includes "}" (content rd)))
      || match parsed rd with
         | Throws _ => true
         | Dom d =>
             existsb (fun s => nonempty s && runaway s) (scripts d)
             || (negb (nameDisplay d)
             || (negb (genname d)
             || negb (includeZi d)))
         end
  end.

(** A page with one script, sound but for a line that opens three braces
    and closes none, and with all three elements. *)
Definition page_with_open_braces : read :=
  {| content := "<script>var a = 1;
if (a) {{{
// }}}</script>";
     parsed := Dom {| scripts := ["var a = 1;
if (a) {{{
// }}}"];
                      nameDisplay := true;
                      genname := true;
                      includeZi := true |} |}.

(** A page that lacks the check box. *)
Definition page_without_checkbox : read :=
  {| content := "<div id='nameDisplay'></div><button id='genname'>";
     parsed := Dom {| scripts := [];
                      nameDisplay := true;
                      genname := true;
                      includeZi := false |} |}.

(** *** Facts *)

Lemma flags_check_line (line : string) (idx : nat) :
  flags (check_line line idx) false false.
Proof.
  unfold check_line. cbv zeta.
  destruct (String.prefix "//" (trim line) || String.prefix "/*" (trim line)
            || (String.length (trim line) =? 0)%nat);
    [apply flags_skip | ].
  destruct (count "}" (trim line) + 1 <? count "{" (trim line))%nat;
    [apply flags_say | apply flags_skip].
Qed.

Lemma flags_each_from (A : Type) (f : A -> nat -> step) (l : list A) :
  (forall x i, flags (f x i) false false) ->
  forall idx, flags (each_from f idx l) false false.
Proof.
  intros H. induction l as [ | x l IH]; intros idx; simpl.
  - apply flags_skip.
  - apply (flags_seq (H x idx) (IH (S idx))).
Qed.

Lemma flags_validate_script (scriptContent : string) :
  flags (check_script scriptContent)
        (nonempty scriptContent && runaway scriptContent) false.
Proof.
  unfold check_script.
  destruct (nonempty scriptContent); [ | apply flags_skip].
  cbn [andb].
  destruct (runaway scriptContent);
    (eapply flags_eq; cycle 2;
     [ flags_step;
       [apply flags_each_from, flags_check_line | repeat flags_step]
     | reflexivity | reflexivity ]).
Qed.

Lemma flags_validate_scripts (l : list string) :
  flags (each check_script l)
        (existsb (fun s => nonempty s && runaway s) l) false.
Proof.
  unfold each. induction l as [ | s l IH]; intros r; simpl.
  - now rewrite !orb_false_r.
  - destruct (IH (check_script s r)) as [-> ->].
    destruct (flags_validate_script s r) as [-> ->].
    now rewrite !orb_false_r, orb_assoc.
Qed.

Lemma flags_check_required (found : bool) (selector what : string) :
  flags (check_required found selector what) (negb found) false.
Proof. unfold check_required. destruct found; flags_closed. Qed.

Lemma flags_validateFile (f : option read) (filePath : string) :
  flags (validateFile f filePath) (file_fails f) false.
Proof.
  unfold validateFile, file_fails.
  destruct f as [rd | ]; [ | flags_closed].
  destruct (includes "function" (content rd)
            && negb (includes "}" (content rd)));
    (destruct (parsed rd) as [message | d]; [flags_closed | ]);
    cbv zeta.
  - eapply flags_eq; cycle 2.
    + flags_step; [flags_step | ].
      flags_step; [flags_step; flags_step | ].
      flags_step; [apply flags_validate_scripts | ].
      flags_step; [flags_step | ].
      flags_step; [apply flags_check_required | ].
      flags_step; [apply flags_check_required | ].
      flags_step; [apply flags_check_required | flags_step].
    + reflexivity.
    + reflexivity.
  - eapply flags_eq; cycle 2.
    + flags_step; [flags_step | ].
      flags_step; [flags_step | ].
      flags_step; [apply flags_validate_scripts | ].
      flags_step; [flags_step | ].
      flags_step; [apply flags_check_required | ].
      flags_step; [apply flags_check_required | ].
      flags_step; [apply flags_check_required | flags_step].
    + simpl. now rewrite !orb_false_r.
    + reflexivity.
Qed.

Lemma tracked_check_line (line : string) (idx : nat) :
  tracked (check_line line idx).
Proof. unfold check_line. cbv zeta. repeat tracked_step. Qed.

Lemma tracked_each_from (A : Type) (f : A -> nat -> step) (l : list A) :
  (forall x i, tracked (f x i)) -> forall idx, tracked (each_from f idx l).
Proof.
  intros H. induction l as [ | x l IH]; intros idx; simpl.
  - apply tracked_skip.
  - apply tracked_seq; [apply H | apply IH].
Qed.

Lemma tracked_validate_script (scriptContent : string) :
  tracked (check_script scriptContent).
Proof.
  unfold check_script. tracked_step; [ | tracked_step].
  tracked_step; [apply tracked_each_from, tracked_check_line | ].
  repeat tracked_step.
Qed.

Lemma tracked_validateFile (f : option read) (filePath : string) :
  tracked (validateFile f filePath).
Proof.
  unfold validateFile, check_required. tracked_step; [tracked_step | ].
  destruct f as [rd | ]; [ | tracked_step].
  tracked_step; [repeat tracked_step | ].
  destruct (parsed rd) as [message | d]; [tracked_step | ].
  cbv zeta.
  tracked_step; [apply tracked_each, tracked_validate_script | ].
  repeat tracked_step.
Qed.

(** X22. [validateFile] raises the error flag exactly when the file is
    absent, its text holds the word function and no closing brace, parsing
    throws, a non-empty script holds three quotes in a row, or one of the
    three required elements is not found.  A line reported for a brace
    mismatch fails nothing. *)
Theorem validate_flags (f : option read) (filePath : string) (r : run) :
  hasErrors (validateFile f filePath r) = hasErrors r || file_fails f
  /\ hasWarnings (validateFile f filePath r) = hasWarnings r.
Proof.
  destruct (flags_validateFile f filePath r) as [-> ->].
  now rewrite orb_false_r.
Qed.

(** X23. The validation script exits with 1 when the page fails and with 0
    otherwise, and with a non-zero code exactly when it printed an error
    line before its summary. *)
Theorem validate_verdict (f : option read) :
  exit_of f = (if file_fails f then 1 else 0)
  /\ (exit_of f <> 0 <-> failed (printed (checks f start)) = true).
Proof.
  assert (T : tracked (checks f)).
  { unfold checks. tracked_step; [tracked_step | apply tracked_validateFile]. }
  unfold exit_of, summary. rewrite (T start) by reflexivity.
  unfold checks, seq.
  destruct (flags_validateFile f "_pages/wuxianame.html"
              (say Log "Starting HTML/JavaScript validation tests..." start))
    as [-> _].
  simpl. destruct (file_fails f); simpl; split; trivial;
    split; intros; congruence.
Qed.

(** X24. A page that is read and parsed gets the line that it passed basic
    validation as the last line of [validateFile], whether or not errors
    were found in it. *)
Theorem validate_passed_line_always (c : string) (d : dom)
    (filePath : string) (r : run) :
  exists lines,
    printed (validateFile (Some {| content := c; parsed := Dom d |})
               filePath r)
    = lines ++ [(Log, (filePath ++ " passed basic validation")%string)].
Proof.
  unfold validateFile. cbn [parsed content]. cbv zeta. unfold seq.
  match goal with
  | |- exists lines, printed (say Log ?m ?x) = _ => exists (printed x)
  end.
  reflexivity.
Qed.

End Validate.

Example split_lines_three :
  Validate.split_lines "a
b
" = ["a"; "b"; ""]%string.
Proof. reflexivity. Qed.

Example validate_open_braces_passes :
  Validate.exit_of (Some Validate.page_with_open_braces) = 0
  /\ Script.warned (Script.printed
                      (Validate.checks (Some Validate.page_with_open_braces)
                         Script.start)) = true.
Proof. split; reflexivity. Qed.

Example validate_without_checkbox_fails :
  Validate.exit_of (Some Validate.page_without_checkbox) = 1
  /\ In (Js.Log, "_pages/wuxianame.html passed basic validation"%string)
        (Script.printed
           (Validate.checks (Some Validate.page_without_checkbox)
              Script.start)).
Proof. split; [reflexivity | ]. vm_compute. tauto. Qed.
